(** * generaIt: the thread store and the streaming chat client

    A shallow embedding of
      - [src/stores/thread.store.ts]  (module [ThreadStore]),
      - [src/utils/thread.utils.ts]   (module [ThreadUtils]),
      - [src/services/chat.service.ts] (module [ChatService]),
      - [src/hooks/chat.hooks.ts], [useChatStream] (module [ChatHooks]),
    with the properties of the design document stated over them.  The
    streaming library the service calls is not part of the sources; its
    dispatch is [ChatService.deliver].

    Conventions of the embedding.
      - A [Date] is the integer [getTime()] returns (milliseconds), a [Z].
        [JSON.stringify] writes a date as an ISO string and [new Date(iso)]
        reads the same instant back, so dates cross the storage boundary
        unchanged.
      - Strings are Rocq strings; [trim] strips the ASCII white space.
      - [new Date()] reads the field [clock] of the browser state; time
        passes between calls ([tick]), not inside one.
      - A zustand [set (state => partial)] is a function on the store record
        that replaces the fields of [partial]. *)

From Stdlib Require Import ZArith Lia Sorted Permutation Ascii.
From stdpp Require Import base decidable option list sorting gmap strings pretty.

Set Warnings "-clear-no-such-hyp".

Open Scope Z_scope.

(** ** Data model ([src/types/chat.types.ts]) *)

Inductive ChatMessageRole := user | assistant | system.

Global Instance ChatMessageRole_eq_dec : EqDecision ChatMessageRole.
Proof. solve_decision. Defined.

Record ChatMessage := mkMessage {
  msg_id    : string;
  role      : ChatMessageRole;
  content   : string;
  timestamp : Z
}.

Record ChatThread := mkThread {
  thread_id : string;
  title     : string;
  messages  : list ChatMessage;
  createdAt : Z;
  updatedAt : Z
}.

Global Instance ChatMessage_eq_dec : EqDecision ChatMessage.
Proof. solve_decision. Defined.

Global Instance ChatThread_eq_dec : EqDecision ChatThread.
Proof. solve_decision. Defined.

(** The argument of [addMessage]: [Omit<ChatMessage, 'id' | 'timestamp'>]. *)
Record MessageInput := mkInput {
  in_role    : ChatMessageRole;
  in_content : string
}.

(** ** JavaScript idioms *)

(** [s.trim()], on ASCII white space. *)
Fixpoint trimStart (s : string) : string :=
  match s with
  | String a s' => if Ascii.is_space a then trimStart s' else s
  | EmptyString => EmptyString
  end.

Definition trim (s : string) : string :=
  String.rev (trimStart (String.rev (trimStart s))).

(** A string is falsy exactly when it is empty. *)
Definition truthy (s : string) : bool := negb (bool_decide (s = "")).

(** [o || d] for an optional string [o]: absent and empty both give [d]. *)
Definition or_default (o : option string) (d : string) : string :=
  match o with
  | Some s => if truthy s then s else d
  | None => d
  end.

(** ** The browser: clock, lodash's id counter, localStorage *)

(** What a localStorage key holds.  [ThreadsJson ts] is the text
    [JSON.stringify] produces for the thread array [ts]; [OtherText s] is any
    text that is not the JSON of a thread array: empty (falsy), rejected by
    [JSON.parse], or of a shape on which the mapping code of [loadThreads]
    throws. *)
Inductive stored :=
  | OtherText (s : string)
  | ThreadsJson (ts : list ChatThread).

Record Browser := mkBrowser {
  clock        : Z;                    (* what [new Date()] reads *)
  idCounter    : nat;                  (* lodash's [idCounter] *)
  localStorage : gmap string stored;
  storageFails : bool                  (* [getItem]/[setItem] throw *)
}.

Definition tick (d : Z) (b : Browser) : Browser :=
  mkBrowser (clock b + d) (idCounter b) (localStorage b) (storageFails b).

(** lodash [uniqueId(prefix)]: [var id = ++idCounter; return prefix + id]. *)
Definition uniqueId (prefix : string) (b : Browser) : string * Browser :=
  let n := S (idCounter b) in
  (prefix +:+ pretty n,
   mkBrowser (clock b) n (localStorage b) (storageFails b)).

(** [localStorage.getItem]: [None] when the call throws, [Some None] for
    JavaScript's [null]. *)
Definition getItem (key : string) (b : Browser) : option (option stored) :=
  if storageFails b then None else Some (localStorage b !! key).

(** [localStorage.setItem]: [None] when the call throws. *)
Definition setItem (key : string) (v : stored) (b : Browser) : option Browser :=
  if storageFails b then None
  else Some (mkBrowser (clock b) (idCounter b) (<[key := v]> (localStorage b))
                       (storageFails b)).

(** ** [src/utils/thread.utils.ts] *)

Module ThreadUtils.

Definition generateMessageId (b : Browser) : string * Browser :=
  uniqueId "msg_" b.

Definition generateThreadTitle (ms : list ChatMessage) : string :=
  match List.find (λ m, bool_decide (role m = user)) ms with
  | Some firstUserMessage =>
      let trimmed := trim (content firstUserMessage) in
      if truthy trimmed then
        let title := String.substring 0 50 trimmed in
        if bool_decide (String.length title < String.length trimmed)%nat
        then title +:+ "..."
        else title
      else "New Chat"
  | None => "New Chat"
  end.

(** [formatThreadDate], with [now] read from the clock.  The first four
    branches give the text; the last one hands the date to
    [toLocaleDateString], whose text depends on the locale: it is kept as the
    date, [inr date].  [Math.floor] of a quotient by a positive number is
    [Z.div]. *)
Definition formatThreadDate (b : Browser) (date : Z) : string + Z :=
  let diffMs := clock b - date in
  let diffSecs := diffMs / 1000 in
  let diffMins := diffSecs / 60 in
  let diffHours := diffMins / 60 in
  let diffDays := diffHours / 24 in
  if bool_decide (diffSecs < 60) then inl "Just now"
  else if bool_decide (diffMins < 60) then inl (pretty diffMins +:+ "m ago")
  else if bool_decide (diffHours < 24) then inl (pretty diffHours +:+ "h ago")
  else if bool_decide (diffDays < 7) then inl (pretty diffDays +:+ "d ago")
  else inr date.

(** [formatLastChat]: the timestamp is [null] or the ISO string of a date,
    here the date itself. *)
Definition formatLastChat (b : Browser) (timestamp : option Z) : string + Z :=
  match timestamp with
  | None => inl "Never"
  | Some date =>
      let diffMs := clock b - date in
      let diffMins := diffMs / 60000 in
      let diffHours := diffMs / 3600000 in
      let diffDays := diffMs / 86400000 in
      if bool_decide (diffMins < 1) then inl "Just now"
      else if bool_decide (diffMins < 60) then inl (pretty diffMins +:+ "m ago")
      else if bool_decide (diffHours < 24) then inl (pretty diffHours +:+ "h ago")
      else if bool_decide (diffDays < 7) then inl (pretty diffDays +:+ "d ago")
      else inr date
  end.

End ThreadUtils.

(** ** [src/stores/thread.store.ts] *)

Module ThreadStore.
Import ThreadUtils.

Record t := mk {
  threads         : list ChatThread;
  currentThreadId : option string
}.

Global Instance t_eq_dec : EqDecision t.
Proof. solve_decision. Defined.

Definition initial : t := mk [] None.

(** The order the store means by "most recent first". *)
Definition notOlder (a b : ChatThread) : Prop := updatedAt b ≤ updatedAt a.

Global Instance notOlder_dec : RelDecision notOlder.
Proof. intros a b. unfold notOlder. apply _. Defined.

Definition recencyOrdered (l : list ChatThread) : Prop := Sorted notOlder l.

Global Instance recencyOrdered_dec l : Decision (recencyOrdered l).
Proof. unfold recencyOrdered. apply _. Defined.

Definition hasId (i : string) (m : ChatMessage) : bool :=
  bool_decide (msg_id m = i).

(** How many messages of a list carry the id [i]. *)
Definition countId (i : string) (ms : list ChatMessage) : nat :=
  length (List.filter (hasId i) ms).

Definition getThreadsStorageKey (userId : string) : string :=
  "chat_threads_" +:+ userId.

(** The filter with a [Set] of seen ids that [loadThreads] and
    [saveThreads] both run over a thread's messages. *)
Fixpoint dedupFrom (seenMessageIds : gset string) (ms : list ChatMessage)
  : list ChatMessage :=
  match ms with
  | [] => []
  | m :: rest =>
      if decide (msg_id m ∈ seenMessageIds) then dedupFrom seenMessageIds rest
      else m :: dedupFrom ({[msg_id m]} ∪ seenMessageIds) rest
  end.

Definition deduplicatedMessages (ms : list ChatMessage) : list ChatMessage :=
  dedupFrom ∅ ms.

Definition dedupThread (th : ChatThread) : ChatThread :=
  mkThread (thread_id th) (title th) (deduplicatedMessages (messages th))
           (createdAt th) (updatedAt th).

(** [arr.sort((a, b) => b.updatedAt.getTime() - a.updatedAt.getTime())].
    [Array.prototype.sort] is stable, so the result is the stable sort by
    descending [updatedAt]: written as an insertion sort that puts a thread
    in front of the first one that is not newer than it. *)
Fixpoint insertByRecency (th : ChatThread) (l : list ChatThread)
  : list ChatThread :=
  match l with
  | [] => [th]
  | u :: l' =>
      if bool_decide (updatedAt u ≤ updatedAt th) then th :: u :: l'
      else u :: insertByRecency th l'
  end.

Definition sortByRecency (l : list ChatThread) : list ChatThread :=
  foldr insertByRecency [] l.

(** *** Actions *)

Definition createThread (title : option string) (b : Browser) (s : t)
  : string * t * Browser :=
  let '(threadId, b') := uniqueId "thread_" b in
  let now := clock b' in
  let newThread := mkThread threadId (or_default title "New Chat") [] now now in
  (threadId, mk (newThread :: threads s) (Some threadId), b').

Definition getThread (id : string) (s : t) : option ChatThread :=
  List.find (λ th, bool_decide (thread_id th = id)) (threads s).

Definition getCurrentThread (s : t) : option ChatThread :=
  match currentThreadId s with
  | Some cur =>
      if truthy cur
      then List.find (λ th, bool_decide (thread_id th = cur)) (threads s)
      else None
  | None => None
  end.

Definition setCurrentThread (id : string) (s : t) : t :=
  mk (threads s) (Some id).

(** The callback [addMessage] maps over the threads. *)
Definition addTo (threadId : string) (message : MessageInput)
    (newMessage : ChatMessage) (now : Z) (th : ChatThread) : ChatThread :=
  if bool_decide (thread_id th = threadId) then
    let messageExists :=
      existsb (λ m, bool_decide (msg_id m = msg_id newMessage)) (messages th) in
    if messageExists then th
    else
      let msgs := messages th ++ [newMessage] in
      let newTitle :=
        if bool_decide (title th = "New Chat") && bool_decide (in_role message = user)
        then generateThreadTitle msgs
        else title th in
      mkThread (thread_id th) newTitle msgs (createdAt th) now
  else th.

Definition addMessage (threadId : string) (message : MessageInput)
    (messageId : option string) (b : Browser) (s : t) : t * Browser :=
  let '(newId, b') :=
    match messageId with
    | Some i => if truthy i then (i, b) else generateMessageId b
    | None => generateMessageId b
    end in
  let newMessage :=
    mkMessage newId (in_role message) (in_content message) (clock b') in
  (mk (map (addTo threadId message newMessage (clock b')) (threads s))
      (currentThreadId s),
   b').

Definition setContent (messageId newContent : string) (m : ChatMessage)
  : ChatMessage :=
  if bool_decide (msg_id m = messageId)
  then mkMessage (msg_id m) (role m) newContent (timestamp m)
  else m.

Definition updateMessage (threadId messageId newContent : string)
    (b : Browser) (s : t) : t :=
  mk (map (λ th,
            if bool_decide (thread_id th = threadId) then
              mkThread (thread_id th) (title th)
                       (map (setContent messageId newContent) (messages th))
                       (createdAt th) (clock b)
            else th)
          (threads s))
     (currentThreadId s).

Definition renameThread (threadId newTitle : string) (s : t) : t :=
  mk (map (λ th,
            if bool_decide (thread_id th = threadId) then
              mkThread (thread_id th) (or_default (Some (trim newTitle)) "New Chat")
                       (messages th) (createdAt th) (updatedAt th)
            else th)
          (threads s))
     (currentThreadId s).

Definition deleteThread (threadId : string) (s : t) : t :=
  let remainingThreads :=
    filter (λ th, thread_id th ≠ threadId) (threads s) in
  let newCurrentThreadId :=
    if bool_decide (currentThreadId s = Some threadId) then
      match remainingThreads with
      | first :: _ => Some (thread_id first)
      | [] => None
      end
    else currentThreadId s in
  mk remainingThreads newCurrentThreadId.

(** [loadThreads]: every exit through [catch], and the skipped [if (stored)],
    leave the store as it is; [set ({ threads })] keeps the selection. *)
Definition loadThreads (userId : string) (b : Browser) (s : t) : t :=
  match getItem (getThreadsStorageKey userId) b with
  | Some (Some (ThreadsJson parsed)) =>
      mk (sortByRecency (map dedupThread parsed)) (currentThreadId s)
  | Some (Some (OtherText txt)) =>
      if truthy txt then s   (* [JSON.parse] or the mapping throws: caught *)
      else s                 (* [if (stored)] is skipped *)
  | Some None => s           (* [null]: [if (stored)] is skipped *)
  | None => s                (* [getItem] throws: caught *)
  end.

(** [saveThreads]: a throwing [setItem] is caught and nothing is written. *)
Definition saveThreads (userId : string) (b : Browser) (s : t) : Browser :=
  let deduplicatedThreads := map dedupThread (threads s) in
  let sortedThreads := sortByRecency deduplicatedThreads in
  match setItem (getThreadsStorageKey userId) (ThreadsJson sortedThreads) b with
  | Some b' => b'
  | None => b
  end.

Definition clearThreads (s : t) : t := mk [] None.

End ThreadStore.

(** ** [src/services/chat.service.ts] *)

Module ChatService.

Record JsError := mkError {
  err_name    : string;
  err_message : string
}.

Global Instance JsError_eq_dec : EqDecision JsError.
Proof. solve_decision. Defined.

(** [new Error(msg)]. *)
Definition Error (msg : string) : JsError := mkError "Error" msg.

(** A thrown value: an [Error] instance, or anything else, kept as the text
    [String(err)] gives. *)
Inductive thrown :=
  | ThrownError (e : JsError)
  | ThrownOther (text : string).

(** What the client does that its caller can observe, in order:
    the calls of the three callbacks, and the payloads handed to
    [JSON.parse]. *)
Inductive call :=
  | JsonParse (data : string)
  | OnChunk (accumulated : string)
  | OnComplete
  | OnError (e : JsError).

Global Instance call_eq_dec : EqDecision call.
Proof. solve_decision. Defined.

(** [convertMessagesToOpenAIFormat]. *)
Definition roleName (r : ChatMessageRole) : string :=
  match r with
  | user => "user"
  | assistant => "assistant"
  | system => "system"
  end.

Definition convertMessagesToOpenAIFormat (ms : list ChatMessage)
  : list (string * string) :=
  map (λ m, (roleName (role m), content m)) ms.

(** What the transport can report to one call of [fetchEventSource]: an
    event of the response body, the end of the body, a failure of the request
    or of the reading of the body, and the abort of the caller's signal. *)
Inductive transport :=
  | Message (data : string)
  | EndOfBody
  | Failure (err : thrown)
  | AbortSignal.

Inductive phase := Streaming | Completed | Errored | Aborted.

Global Instance phase_eq_dec : EqDecision phase.
Proof. solve_decision. Defined.

(** The variables of one call of [streamChatCompletion]. *)
Record client := mkClient {
  accumulatedContent : string;
  status             : phase
}.

Section Client.

(** [JSON.parse(event.data)] followed by
    [parsed.choices?.[0]?.delta?.content]: [None] when one of the two
    throws, [Some None] when the chunk has no content, [Some (Some c)]
    for the content [c]. *)
Variable parseChunk : string → option (option string).

Definition onmessage (data : string) (acc : string) : string * list call :=
  if bool_decide (data = "[DONE]") then (acc, [])
  else
    match parseChunk data with
    | Some (Some c) =>
        if truthy c
        then (acc +:+ c, [JsonParse data; OnChunk (acc +:+ c)])
        else (acc, [JsonParse data])
    | Some None => (acc, [JsonParse data])
    | None => (acc, [JsonParse data])      (* caught: the event is dropped *)
    end.

(** [onerror]: reports, then rethrows [err]. *)
Definition onerror (err : thrown) : list call :=
  [OnError (match err with
            | ThrownError e => e
            | ThrownOther text => Error text
            end)].

Definition onclose : list call := [OnComplete].

(** The [.catch] on the promise of [fetchEventSource]. *)
Definition catchHandler (err : thrown) : list call :=
  match err with
  | ThrownError e =>
      if bool_decide (err_name e ≠ "AbortError") then [OnError e] else []
  | ThrownOther _ => []
  end.

Definition streamChatCompletion : client := mkClient "" Streaming.

(** Modelled from the spec: [fetchEventSource], of the package
    [@microsoft/fetch-event-source], is not among the sources; what it does
    with the handlers it is given is taken from the design document
    (sections 4.2 and 5).  A session goes from streaming to completed,
    errored or aborted and never back.  While it streams, every event of the
    response body is handed to [onmessage], in order; the end of the body
    calls [onclose]; a failure calls [onerror], which rethrows here, so the
    library does not retry and rejects its promise with the rethrown value,
    which the [.catch] of [streamChatCompletion] receives; the abort of the
    caller's signal stops the request and settles the promise without calling
    a handler.  Whatever the transport still holds for a session that has
    ended is discarded. *)
Definition deliver (ev : transport) (c : client) : client * list call :=
  match status c with
  | Streaming =>
      match ev with
      | Message data =>
          let '(acc, calls) := onmessage data (accumulatedContent c) in
          (mkClient acc Streaming, calls)
      | EndOfBody => (mkClient (accumulatedContent c) Completed, onclose)
      | Failure err =>
          (mkClient (accumulatedContent c) Errored,
           onerror err ++ catchHandler err)
      | AbortSignal => (mkClient (accumulatedContent c) Aborted, [])
      end
  | Completed | Errored | Aborted => (c, [])
  end.

(** A whole run: the calls made, in order, and the client at the end. *)
Fixpoint run (evs : list transport) (c : client) : client * list call :=
  match evs with
  | [] => (c, [])
  | ev :: evs' =>
      let r1 := deliver ev c in
      let r2 := run evs' r1.1 in
      (r2.1, r1.2 ++ r2.2)
  end.

End Client.

(** The arguments of the [onChunk] calls of a trace, in order. *)
Definition chunksOf (calls : list call) : list string :=
  omap (λ c, match c with OnChunk s => Some s | _ => None end) calls.

Definition isComplete (c : call) : bool :=
  match c with OnComplete => true | _ => false end.

Definition isError (c : call) : bool :=
  match c with OnError _ => true | _ => false end.

End ChatService.

(** ** [src/hooks/chat.hooks.ts]: [useChatStream] *)

Module ChatHooks.
Import ThreadUtils ChatService.

(** [src/types/auth.types.ts]. *)
Record User := mkUser {
  user_id  : string;
  username : string
}.

(** The React state and refs of the hook.  [abortRef] holds the abort
    function of a stream, named by the index of that stream. *)
Record HookState := mkHook {
  isStreaming         : bool;
  error               : option JsError;
  abortRef            : option nat;
  currentMessageIdRef : option string
}.

(** One call of [streamChatCompletion] made by [sendMessage]: the values
    its callbacks close over, the request body, and the client. *)
Record StreamSession := mkSession {
  s_threadId  : string;
  s_messageId : string;
  s_user      : User;
  s_request   : list (string * string);
  s_client    : client
}.

Record App := mkApp {
  store    : ThreadStore.t;
  browser  : Browser;
  authUser : option User;
  hook     : HookState;
  sessions : list StreamSession
}.

Definition withHook (h : HookState) (a : App) : App :=
  mkApp (store a) (browser a) (authUser a) h (sessions a).

Definition setError (e : option JsError) (a : App) : App :=
  withHook (mkHook (isStreaming (hook a)) e (abortRef (hook a))
                   (currentMessageIdRef (hook a))) a.

(** [setIsStreaming(false); currentMessageIdRef.current = null;
    abortRef.current = null]. *)
Definition cleanUp (a : App) : App :=
  withHook (mkHook false (error (hook a)) None None) a.

(** The errors of the checks [sendMessage] makes before it touches anything. *)
Definition validationErrors : list JsError :=
  [ Error "Message content cannot be empty";
    Error "No active thread or user";
    Error "Already streaming a response";
    Error "Thread not found" ].

Definition isValidation (e : JsError) : bool :=
  bool_decide (e ∈ validationErrors).

(** The three callbacks [sendMessage] passes to [streamChatCompletion]. *)
Definition onChunk (ss : StreamSession) (accumulated : string) (a : App) : App :=
  mkApp (ThreadStore.updateMessage (s_threadId ss) (s_messageId ss) accumulated
                                   (browser a) (store a))
        (browser a) (authUser a) (hook a) (sessions a).

Definition onComplete (ss : StreamSession) (a : App) : App :=
  cleanUp (mkApp (store a)
                 (ThreadStore.saveThreads (user_id (s_user ss)) (browser a) (store a))
                 (authUser a) (hook a) (sessions a)).

Definition onError (ss : StreamSession) (err : JsError) (a : App) : App :=
  if bool_decide (err_name err = "AbortError") then cleanUp a
  else cleanUp (setError (Some err) a).

(** A call the client makes, as it acts on the application.  [JSON.parse]
    touches nothing. *)
Definition perform (ss : StreamSession) (c : call) (a : App) : App :=
  match c with
  | JsonParse _ => a
  | OnChunk accumulated => onChunk ss accumulated a
  | OnComplete => onComplete ss a
  | OnError err => onError ss err a
  end.

Definition sendable (m : ChatMessage) : bool :=
  bool_decide (role m ≠ assistant) || truthy (trim (content m)).

(** [sendMessage], after its three validation checks and the lookup of the
    current thread have passed. *)
Definition startStream (threadId : string) (u : User) (content : string)
    (a : App) : App :=
  (* [setError(null); setIsStreaming(true)], then the two [addMessage] *)
  let r1 :=
    ThreadStore.addMessage threadId (mkInput user (trim content)) None
                           (browser a) (store a) in
  let g := generateMessageId r1.2 in
  let assistantMessageId := g.1 in
  let r2 :=
    ThreadStore.addMessage threadId (mkInput assistant "")
                           (Some assistantMessageId) g.2 r1.1 in
  match ThreadStore.getCurrentThread r2.1 with
  | None =>
      (* [throw new Error(...)], handled by the [catch] of [sendMessage] *)
      mkApp r2.1 r2.2 (authUser a)
            (mkHook false (Some (Error "Thread not found after adding message"))
                    None None)
            (sessions a)
  | Some updatedThread =>
      let messagesForAPI := List.filter sendable (messages updatedThread) in
      let apiMessages := convertMessagesToOpenAIFormat messagesForAPI in
      let ss := mkSession threadId assistantMessageId u apiMessages
                          streamChatCompletion in
      mkApp r2.1 r2.2 (authUser a)
            (mkHook true None (Some (length (sessions a))) (Some assistantMessageId))
            (sessions a ++ [ss])
  end.

Definition sendMessage (content : string) (a : App) : App :=
  if negb (truthy (trim content)) then
    setError (Some (Error "Message content cannot be empty")) a
  else
    match ThreadStore.currentThreadId (store a), authUser a with
    | Some threadId, Some u =>
        if negb (truthy threadId) then
          setError (Some (Error "No active thread or user")) a
        else if isStreaming (hook a) then
          setError (Some (Error "Already streaming a response")) a
        else
          match ThreadStore.getCurrentThread (store a) with
          | None => setError (Some (Error "Thread not found")) a
          | Some _ => startStream threadId u content a
          end
    | _, _ => setError (Some (Error "No active thread or user")) a
    end.

Section Transport.

Variable parseChunk : string → option (option string).

(** The transport reports [ev] to stream [k]: the client runs its
    handlers, and the callbacks it calls act on the application. *)
Definition transportEvent (k : nat) (ev : transport) (a : App) : App :=
  match sessions a !! k with
  | None => a
  | Some ss =>
      let '(c', calls) := deliver parseChunk ev (s_client ss) in
      let ss' := mkSession (s_threadId ss) (s_messageId ss) (s_user ss)
                           (s_request ss) c' in
      foldl (λ acc c, perform ss c acc)
            (mkApp (store a) (browser a) (authUser a) (hook a)
                   (<[k := ss']> (sessions a)))
            calls
  end.

(** [abort] of the hook. *)
Definition abort (a : App) : App :=
  match abortRef (hook a) with
  | Some k =>
      cleanUp (transportEvent k AbortSignal a)
  | None => a
  end.

(** What can happen to the application, one step at a time. *)
Inductive action :=
  | Send (content : string)
  | Abort
  | Transport (k : nat) (ev : transport)
  | Tick (d : Z).

Definition step (act : action) (a : App) : App :=
  match act with
  | Send content => sendMessage content a
  | Abort => abort a
  | Transport k ev => transportEvent k ev a
  | Tick d => mkApp (store a) (tick d (browser a)) (authUser a) (hook a)
                    (sessions a)
  end.

Definition steps (acts : list action) (a : App) : App :=
  foldl (λ acc act, step act acc) a acts.

End Transport.

End ChatHooks.

(** * Notions used in the statements *)

(** [useDashboardStats], the hook behind the dashboard, finds the most
    recently updated thread without relying on the order of the list, with
    [l.reduce((latest, th) => th.updatedAt > latest.updatedAt ? th : latest, l[0])]
    (there [l] is the list of the threads that have messages). *)
Definition mostRecentThread (l : list ChatThread) : option ChatThread :=
  match l with
  | [] => None
  | first :: _ =>
      Some (foldl (λ latest th,
                     if bool_decide (updatedAt latest < updatedAt th) then th
                     else latest)
                  first l)
  end.

(** The thread [updateMessage] makes of a thread with the given id when the
    message id is not one of its messages: the same thread, stamped anew. *)
Definition touch (threadId : string) (now : Z) (th : ChatThread) : ChatThread :=
  if bool_decide (thread_id th = threadId)
  then mkThread (thread_id th) (title th) (messages th) (createdAt th) now
  else th.

(** The text fragment an event carries: none for the terminator, for a
    payload that does not parse, and for a chunk without content. *)
Definition fragmentOf (parseChunk : string → option (option string))
    (data : string) : option string :=
  if bool_decide (data = "[DONE]") then None
  else match parseChunk data with
       | Some (Some c) => Some c
       | Some None | None => None
       end.

(** The fragments of a stream of events, in arrival order; and those of them
    that are not empty. *)
Definition fragments (parseChunk : string → option (option string))
    (datas : list string) : list string :=
  omap (fragmentOf parseChunk) datas.

Definition nonEmptyFragments (parseChunk : string → option (option string))
    (datas : list string) : list string :=
  List.filter truthy (fragments parseChunk datas).

Definition joinAll (l : list string) : string := foldr String.append "" l.

(** [cumulative acc [f1; ...; fn]] is [acc ++ f1; ...; acc ++ f1 ++ ... ++ fn]. *)
Fixpoint cumulative (acc : string) (fs : list string) : list string :=
  match fs with
  | [] => []
  | f :: fs' => (acc +:+ f) :: cumulative (acc +:+ f) fs'
  end.

(** The store after [onChunk] has been called with each of [texts] in turn. *)
Definition applyChunks (threadId messageId : string) (b : Browser)
    (texts : list string) (s : ThreadStore.t) : ThreadStore.t :=
  foldl (λ st text, ThreadStore.updateMessage threadId messageId text b st) s texts.

(** The thread [threadId] is in the store and holds a message [messageId]. *)
Definition holds (threadId messageId : string) (s : ThreadStore.t) : Prop :=
  ∃ th m, th ∈ ThreadStore.threads s ∧ thread_id th = threadId
          ∧ m ∈ messages th ∧ msg_id m = messageId.

(** Every thread of the store holds each message id at most once. *)
Definition wellFormed (s : ThreadStore.t) : Prop :=
  ∀ th, th ∈ ThreadStore.threads s → NoDup (map msg_id (messages th)).

(** A stream that is in flight is the one [abortRef] names, and the
    in-flight flag is set. *)
Definition singleInFlight (a : ChatHooks.App) : Prop :=
  ∀ k ss, ChatHooks.sessions a !! k = Some ss →
          ChatService.status (ChatHooks.s_client ss) = ChatService.Streaming →
          ChatHooks.abortRef (ChatHooks.hook a) = Some k
          ∧ ChatHooks.isStreaming (ChatHooks.hook a) = true.

(** * Example states *)

(** A persisted collection with a thread that holds the id ["msg_1"] twice. *)
Module C1Example.
Definition first  := mkMessage "msg_1" user "first" 10.
Definition reply  := mkMessage "msg_2" assistant "reply" 11.
Definition again  := mkMessage "msg_1" user "again" 12.
Definition persisted : list ChatThread :=
  [ mkThread "thread_1" "first" [first; reply; again] 5 12 ].
Definition browser : Browser :=
  mkBrowser 100 0 {[ ThreadStore.getThreadsStorageKey "u1" := ThreadsJson persisted ]}
            false.
End C1Example.

Module Scenario.
Import ThreadStore.

(** Three threads are created one after the other, then a message is sent in
    the oldest one. *)
Definition b0 : Browser := mkBrowser 100 0 ∅ false.

Definition afterTwo : ThreadStore.t * Browser :=
  let '(_, s1, b1) := createThread None b0 initial in
  let '(_, s2, b2) := createThread None (tick 10 b1) s1 in
  (s2, b2).

Definition afterThree : ThreadStore.t * Browser :=
  let '(_, s3, b3) := createThread None (tick 10 afterTwo.2) afterTwo.1 in
  (s3, b3).

Definition hello : MessageInput := mkInput user "hello".

End Scenario.

Module Example.
Import ChatHooks.

(** An application with one empty thread, selected, and a signed-in user. *)
Definition joe : User := mkUser "u1" "joe".

Definition idle : App :=
  let '(_, s, b) := ThreadStore.createThread None (mkBrowser 100 0 ∅ false)
                                             ThreadStore.initial in
  mkApp s b (Some joe) (mkHook false None None None) [].

(** The same after [sendMessage "Hi"], ten milliseconds later. *)
Definition sending : App :=
  sendMessage "Hi" (mkApp (store idle) (tick 10 (browser idle)) (authUser idle)
                          (hook idle) (sessions idle)).

(** A wire format for examples: [c:text] stands for a chunk whose
    [choices[0].delta.content] is [text], [{}] for a chunk without content;
    anything else does not parse. *)
Definition parseExample (data : string) : option (option string) :=
  match data with
  | String "c"%char (String ":"%char text) => Some (Some text)
  | String "{"%char (String "}"%char EmptyString) => Some None
  | _ => None
  end.

End Example.

(** The application after a reload: the counter of [uniqueId] starts again
    at zero, and the thread that [loadThreads] brings back holds the ids the
    counter gave out before. *)
Module Reloaded.
Import ChatHooks.

Definition persisted : list ChatThread :=
  [ mkThread "thread_1" "Hi"
      [ mkMessage "msg_1" user "Hi" 110; mkMessage "msg_2" assistant "Hello" 111 ]
      100 111 ].

Definition browser : Browser :=
  mkBrowser 500 0 {[ ThreadStore.getThreadsStorageKey "u1" := ThreadsJson persisted ]}
            false.

Definition app : App :=
  mkApp (ThreadStore.setCurrentThread "thread_1"
           (ThreadStore.loadThreads "u1" browser ThreadStore.initial))
        browser (Some Example.joe) (mkHook false None None None) [].

End Reloaded.

(** * More of the code *)

(** ** [src/utils/avatar.utils.ts] *)

Module AvatarUtils.








End AvatarUtils.

(** ** The dashboard hook [useDashboardStats] *)

Module DashboardHooks.

Record Stats := mkStats {
  totalMessages       : nat;
  activeConversations : nat;
  lastChatTimestamp   : option Z;
  lastChatThreadId    : option string;
  formattedLastChat   : string + Z
}.

Definition useDashboardStats (b : Browser) (s : ThreadStore.t) : Stats :=
  let threads := ThreadStore.threads s in
  let totalMessages :=
    foldl (λ sum th, (sum + length (messages th))%nat) 0%nat threads in
  let threadsWithMessages :=
    List.filter (λ th, bool_decide (0 < length (messages th))%nat) threads in
  let latest := mostRecentThread threadsWithMessages in
  mkStats totalMessages (length threads)
          (updatedAt <$> latest) (thread_id <$> latest)
          (ThreadUtils.formatLastChat b (updatedAt <$> latest)).

End DashboardHooks.

(** ** Components that call the store *)

(** Where the router is sent: [navigate({ to: '/chat', search: { threadId } })],
    or [navigate({ to: '/chat' })] for [None]. *)
Inductive navigation := NavigateTo (threadId : option string).

(** [user?.id], as a condition and as a value. *)
Definition userIdOf (u : option ChatHooks.User) : option string :=
  match u with
  | Some usr => if truthy (ChatHooks.user_id usr) then Some (ChatHooks.user_id usr) else None
  | None => None
  end.

Module ChatConversation.

(** The messages the conversation view renders: those of
    [threads.find(thread => thread.id === currentThreadId)], filtered through
    a [Set] of seen ids. *)
Definition messages (s : ThreadStore.t) : list ChatMessage :=
  let currentThread :=
    match ThreadStore.currentThreadId s with
    | Some cur => List.find (λ th, bool_decide (thread_id th = cur)) (ThreadStore.threads s)
    | None => None
    end in
  match currentThread with
  | Some th => ThreadStore.dedupFrom ∅ (messages th)
  | None => []
  end.

End ChatConversation.

Module NewThreadButton.

Definition handleCreateThread (u : option ChatHooks.User) (b : Browser)
    (s : ThreadStore.t) : ThreadStore.t * Browser * navigation :=
  let r := ThreadStore.createThread (Some "New Chat") b s in
  let b' := match userIdOf u with
            | Some uid => ThreadStore.saveThreads uid r.2 r.1.2
            | None => r.2
            end in
  (r.1.2, b', NavigateTo (Some r.1.1)).

End NewThreadButton.

Module DeleteThreadModal.

Definition handleDelete (threadId : string) (userId : option string)
    (b : Browser) (s : ThreadStore.t)
  : ThreadStore.t * Browser * option navigation :=
  let wasCurrentThread :=
    bool_decide (ThreadStore.currentThreadId s = Some threadId) in
  let s' := ThreadStore.deleteThread threadId s in
  let b' := match userId with
            | Some uid => if truthy uid then ThreadStore.saveThreads uid b s' else b
            | None => b
            end in
  let nav :=
    if wasCurrentThread then
      match ThreadStore.currentThreadId s' with
      | Some cur => if truthy cur then Some (NavigateTo (Some cur))
                    else Some (NavigateTo None)
      | None => Some (NavigateTo None)
      end
    else None in
  (s', b', nav).

End DeleteThreadModal.

Module ThreadRenameInput.


End ThreadRenameInput.

Module ChatInput.


End ChatInput.

(** ** [src/stores/auth.store.ts]: [logout] *)

Module AuthStore.

(** [localStorage.clear()], then [clearThreads()], then the user is dropped.
    With a storage that throws, the first statement throws and nothing has
    been done: [None]. *)
Definition logout (a : ChatHooks.App) : option ChatHooks.App :=
  if storageFails (ChatHooks.browser a) then None
  else
    let b := ChatHooks.browser a in
    Some (ChatHooks.mkApp (ThreadStore.clearThreads (ChatHooks.store a))
                          (mkBrowser (clock b) (idCounter b) ∅ (storageFails b))
                          None (ChatHooks.hook a) (ChatHooks.sessions a)).

End AuthStore.

(** ** [src/hooks/chat.hooks.ts]: [useThreadInitialization] *)

Module ThreadInitialization.

(** The two refs of the hook. *)
Record Refs := mkRefs {
  initializedRef  : bool;
  lastThreadIdRef : option string
}.

(** What an effect asks for: a selection in the store, or a navigation. *)
Inductive command :=
  | SetCurrentThread (id : string)
  | Navigate (to : navigation).

Definition truthyOpt (o : option string) : bool :=
  match o with
  | Some x => truthy x
  | None => false
  end.


(** The second effect: the selection, from the thread id of the URL. *)
Definition selectionEffect (userId threadId : option string)
    (s : ThreadStore.t) (r : Refs) : Refs * option command :=
  let threads := ThreadStore.threads s in
  if negb (truthyOpt userId) || bool_decide (length threads = 0%nat) then
    if bool_decide (length threads = 0%nat) && initializedRef r
    then (mkRefs false (lastThreadIdRef r), None)
    else (r, None)
  else if bool_decide (threadId = lastThreadIdRef r) && initializedRef r then
    (r, None)
  else
    let r' := mkRefs true threadId in
    match threadId with
    | Some tid =>
        if truthy tid then
          match ThreadStore.getThread tid s with
          | Some _ => (r', Some (SetCurrentThread tid))
          | None =>
              match threads with
              | [] => (r', Some (Navigate (NavigateTo None)))
              | mostRecentThread :: _ =>
                  (r', Some (Navigate (NavigateTo (Some (thread_id mostRecentThread)))))
              end
          end
        else
          match threads with
          | mostRecentThread :: _ =>
              (r', Some (Navigate (NavigateTo (Some (thread_id mostRecentThread)))))
          | [] => (r', None)
          end
    | None =>
        match threads with
        | mostRecentThread :: _ =>
            (r', Some (Navigate (NavigateTo (Some (thread_id mostRecentThread)))))
        | [] => (r', None)
        end
    end.

(** The third effect: the URL follows the selection of the store.
    [currentThreadId] is a string or [null], [threadId] a string or
    [undefined]: they are equal only as the same string. *)
Definition urlSyncEffect (currentThreadId threadId : option string)
  : option command :=
  let same := match currentThreadId, threadId with
              | Some c, Some t => bool_decide (c = t)
              | _, _ => false
              end in
  if same then None
  else if truthyOpt currentThreadId
       then Some (Navigate (NavigateTo currentThreadId))
       else if truthyOpt threadId then Some (Navigate (NavigateTo None))
            else None.

(** A command carried out: on the store, and on the thread id of the URL. *)
Definition execute (c : option command) (s : ThreadStore.t)
    (threadId : option string) : ThreadStore.t * option string :=
  match c with
  | Some (SetCurrentThread id) => (ThreadStore.setCurrentThread id s, threadId)
  | Some (Navigate (NavigateTo to)) => (s, to)
  | None => (s, threadId)
  end.

End ThreadInitialization.

(** * Properties *)

(** ** Deduplication of messages *)

Section Dedup.
Import ThreadStore.

Lemma dedupFrom_elem seen ms m :
  m ∈ dedupFrom seen ms → m ∈ ms ∧ msg_id m ∉ seen.
Proof.
  revert seen. induction ms as [|x ms IH]; intros seen; simpl.
  - by intros ?%elem_of_nil.
  - destruct (decide (msg_id x ∈ seen)) as [Hin|Hout].
    + intros [? ?]%IH. split; [by right | done].
    + intros [->|Hm]%elem_of_cons.
      * split; [by left | done].
      * apply IH in Hm as [? Hns]. split; [by right | set_solver].
Qed.

Lemma dedupFrom_NoDup seen ms : NoDup (map msg_id (dedupFrom seen ms)).
Proof.
  revert seen. induction ms as [|x ms IH]; intros seen; simpl.
  - constructor.
  - destruct (decide (msg_id x ∈ seen)); [apply IH |].
    simpl. constructor; [| apply IH].
    intros (m & Hid & Hm)%list_elem_of_fmap.
    apply dedupFrom_elem in Hm as [_ Hns]. set_solver.
Qed.

Lemma dedupFrom_sublist seen ms : sublist (dedupFrom seen ms) ms.
Proof.
  revert seen. induction ms as [|x ms IH]; intros seen; simpl.
  - constructor.
  - destruct (decide (msg_id x ∈ seen)).
    + by apply sublist_cons.
    + by apply sublist_skip.
Qed.

(** The first message with a given id is the same before and after. *)
Lemma dedupFrom_find seen ms i :
  i ∉ seen → List.find (hasId i) (dedupFrom seen ms) = List.find (hasId i) ms.
Proof.
  revert seen. induction ms as [|x ms IH]; intros seen Hi; simpl; [done |].
  destruct (decide (msg_id x ∈ seen)) as [Hin|Hout].
  - destruct (hasId i x) eqn:Hx.
    + apply bool_decide_eq_true in Hx. congruence.
    + by apply IH.
  - simpl. destruct (hasId i x) eqn:Hx; [done |].
    apply bool_decide_eq_false in Hx. apply IH. set_solver.
Qed.

Lemma countId_absent i ms : i ∉ map msg_id ms → countId i ms = 0%nat.
Proof.
  unfold countId. induction ms as [|x ms IH]; simpl; [done |].
  intros Hn. destruct (hasId i x) eqn:Hx.
  - apply bool_decide_eq_true in Hx. set_solver.
  - apply IH. set_solver.
Qed.

(** In a list without repeated ids, an id that occurs occurs once. *)
Lemma countId_NoDup i ms :
  NoDup (map msg_id ms) → i ∈ map msg_id ms → countId i ms = 1%nat.
Proof.
  unfold countId. induction ms as [|x ms IH]; simpl.
  - by intros _ ?%elem_of_nil.
  - intros [Hx Hnd]%NoDup_cons Hi. destruct (hasId i x) eqn:Hid.
    + apply bool_decide_eq_true in Hid. simpl. f_equal. subst i.
      by apply countId_absent.
    + apply bool_decide_eq_false in Hid. apply IH; [done |]. set_solver.
Qed.

Lemma dedupFrom_ids seen ms i :
  i ∉ seen → i ∈ map msg_id ms → i ∈ map msg_id (dedupFrom seen ms).
Proof.
  revert seen. induction ms as [|x ms IH]; intros seen Hi; simpl; [done |].
  intros Hin. destruct (decide (msg_id x ∈ seen)) as [Hs|Hs].
  - apply IH; [done |]. apply elem_of_cons in Hin as [->|]; done.
  - simpl. destruct (decide (i = msg_id x)) as [->|Hne]; [by left |].
    right. apply IH; set_solver.
Qed.

(** A list without repeated ids, none of them seen, passes the filter whole. *)
Lemma dedupFrom_id seen ms :
  NoDup (map msg_id ms) → (∀ i, i ∈ map msg_id ms → i ∉ seen) →
  dedupFrom seen ms = ms.
Proof.
  revert seen. induction ms as [|x ms IH]; intros seen Hnd Hs; simpl; [done |].
  apply NoDup_cons in Hnd as [Hx Hnd].
  rewrite decide_False by (apply Hs; by left).
  f_equal. apply IH; [done |]. intros i Hi. specialize (Hs i). set_solver.
Qed.

Lemma deduplicatedMessages_idemp ms :
  deduplicatedMessages (deduplicatedMessages ms) = deduplicatedMessages ms.
Proof.
  unfold deduplicatedMessages. apply dedupFrom_id; [apply dedupFrom_NoDup |].
  set_solver.
Qed.

Lemma dedupThread_idemp th : dedupThread (dedupThread th) = dedupThread th.
Proof. unfold dedupThread; simpl. by rewrite deduplicatedMessages_idemp. Qed.

Lemma dedupThread_updatedAt th : updatedAt (dedupThread th) = updatedAt th.
Proof. done. Qed.

End Dedup.

(** ** The sort by recency *)

Section Recency.
Import ThreadStore.

Lemma insertByRecency_perm th l : insertByRecency th l ≡ₚ th :: l.
Proof.
  induction l as [|u l IH]; simpl; [done |].
  case_bool_decide; [done |]. rewrite IH. apply Permutation_swap.
Qed.

Lemma sortByRecency_perm l : sortByRecency l ≡ₚ l.
Proof.
  induction l as [|th l IH]; simpl; [done |].
  rewrite insertByRecency_perm. by constructor.
Qed.

Lemma insertByRecency_ordered th l :
  recencyOrdered l → recencyOrdered (insertByRecency th l).
Proof.
  unfold recencyOrdered.
  induction l as [|u l IH]; simpl; intros Hs.
  - repeat constructor.
  - case_bool_decide as Hle.
    + constructor; [done |]. constructor. done.
    + apply Sorted_inv in Hs as [Hs Hhd]. constructor; [by apply IH |].
      destruct l as [|v l]; simpl.
      * constructor. unfold notOlder. lia.
      * case_bool_decide.
        -- constructor. unfold notOlder. lia.
        -- constructor. by apply HdRel_inv in Hhd.
Qed.

Lemma sortByRecency_ordered l : recencyOrdered (sortByRecency l).
Proof.
  induction l as [|th l IH]; simpl; [constructor |].
  by apply insertByRecency_ordered.
Qed.

(** The sort looks at [updatedAt] alone, so it commutes with any change of
    the threads that keeps [updatedAt]. *)
Lemma insertByRecency_map (f : ChatThread → ChatThread) th l :
  (∀ x, updatedAt (f x) = updatedAt x) →
  map f (insertByRecency th l) = insertByRecency (f th) (map f l).
Proof.
  intros Hf. induction l as [|u l IH]; simpl; [done |].
  rewrite !Hf. case_bool_decide; simpl; [done |]. by rewrite IH.
Qed.

Lemma sortByRecency_map (f : ChatThread → ChatThread) l :
  (∀ x, updatedAt (f x) = updatedAt x) →
  map f (sortByRecency l) = sortByRecency (map f l).
Proof.
  intros Hf. induction l as [|th l IH]; simpl; [done |].
  by rewrite insertByRecency_map, IH.
Qed.

(** The sort is stable: an ordered list is left as it is. *)
Lemma sortByRecency_id l : recencyOrdered l → sortByRecency l = l.
Proof.
  unfold recencyOrdered.
  induction l as [|th l IH]; simpl; [done |].
  intros [Hs Hhd]%Sorted_inv. rewrite IH by done.
  destruct l as [|u l]; simpl; [done |].
  apply HdRel_inv in Hhd. unfold notOlder in Hhd.
  by rewrite bool_decide_eq_true_2.
Qed.

Lemma sortByRecency_idemp l : sortByRecency (sortByRecency l) = sortByRecency l.
Proof. apply sortByRecency_id, sortByRecency_ordered. Qed.

(** In an ordered list the head is not older than any thread of the list. *)
Lemma recencyOrdered_head th l u :
  recencyOrdered (th :: l) → u ∈ th :: l → updatedAt u ≤ updatedAt th.
Proof.
  unfold recencyOrdered. intros Hs%Sorted_StronglySorted.
  - apply StronglySorted_inv in Hs as [_ Hall].
    intros [->|Hu]%elem_of_cons; [lia |].
    rewrite List.Forall_forall in Hall. apply Hall. by apply list_elem_of_In.
  - intros x y z. unfold notOlder. lia.
Qed.

End Recency.

(** ** Load and save *)

Section Persistence.
Import ThreadStore.

Lemma getItem_ok key b :
  storageFails b = false → getItem key b = Some (localStorage b !! key).
Proof. unfold getItem. by intros ->. Qed.

(** What [loadThreads] puts in memory when the key holds a thread array. *)
Lemma loadThreads_found userId b s persisted :
  storageFails b = false →
  localStorage b !! getThreadsStorageKey userId = Some (ThreadsJson persisted) →
  loadThreads userId b s =
    mk (sortByRecency (map dedupThread persisted)) (currentThreadId s).
Proof.
  intros Hf Hl. unfold loadThreads. by rewrite getItem_ok, Hl.
Qed.

(** What [saveThreads] writes when the storage accepts the write. *)
Lemma saveThreads_written userId b s :
  storageFails b = false →
  localStorage (saveThreads userId b s) !! getThreadsStorageKey userId =
    Some (ThreadsJson (sortByRecency (map dedupThread (threads s)))).
Proof.
  intros Hf. unfold saveThreads, setItem. rewrite Hf. simpl.
  by rewrite lookup_insert_eq.
Qed.

(** Sorting and deduplicating a second time changes nothing. *)
Lemma save_after_load l :
  sortByRecency (map dedupThread (sortByRecency (map dedupThread l))) =
  sortByRecency (map dedupThread l).
Proof.
  rewrite (sortByRecency_map dedupThread) by done.
  rewrite sortByRecency_idemp. f_equal.
  rewrite map_map. apply map_ext. intros th. apply dedupThread_idemp.
Qed.

End Persistence.

(** C1.  When the storage key of an owner holds a thread collection,
    [loadThreads] followed by [saveThreads] writes back, under the same key,
    the same threads (ordered by recency) in which every thread keeps its
    fields and holds each message id once: no id is repeated, every id of the
    persisted thread is still there exactly once, the message kept for an id
    is the first one the persisted thread had with that id, and the messages
    kept stay in their original order.  This holds in particular for a
    collection with a thread that holds an id twice. *)
Theorem C1_load_save_keeps_first_occurrence
    (userId : string) (b : Browser) (s : ThreadStore.t)
    (persisted : list ChatThread) :
  storageFails b = false →
  localStorage b !! ThreadStore.getThreadsStorageKey userId
    = Some (ThreadsJson persisted) →
  let s' := ThreadStore.loadThreads userId b s in
  let b' := ThreadStore.saveThreads userId b s' in
  ∃ saved,
    localStorage b' !! ThreadStore.getThreadsStorageKey userId
      = Some (ThreadsJson saved)
    ∧ saved ≡ₚ map ThreadStore.dedupThread persisted
    ∧ ThreadStore.recencyOrdered saved
    ∧ ∀ th, th ∈ persisted →
        ∃ th', th' ∈ saved
          ∧ thread_id th' = thread_id th ∧ title th' = title th
          ∧ createdAt th' = createdAt th ∧ updatedAt th' = updatedAt th
          ∧ NoDup (map msg_id (messages th'))
          ∧ sublist (messages th') (messages th)
          ∧ ∀ i, i ∈ map msg_id (messages th) →
              ThreadStore.countId i (messages th') = 1%nat
              ∧ List.find (ThreadStore.hasId i) (messages th')
                = List.find (ThreadStore.hasId i) (messages th).
Proof.
  intros Hf Hl s' b'.
  exists (ThreadStore.sortByRecency (map ThreadStore.dedupThread persisted)).
  split.
  { subst s' b'. rewrite saveThreads_written by done.
    rewrite (loadThreads_found _ _ _ persisted) by done. simpl.
    by rewrite save_after_load. }
  split; [apply sortByRecency_perm |].
  split; [apply sortByRecency_ordered |].
  intros th Hth. exists (ThreadStore.dedupThread th).
  split.
  { rewrite sortByRecency_perm. apply list_elem_of_fmap. eauto. }
  repeat (split; [done |]). simpl.
  split; [apply dedupFrom_NoDup |].
  split; [apply dedupFrom_sublist |].
  intros i Hi. split.
  - apply countId_NoDup; [apply dedupFrom_NoDup |].
    apply dedupFrom_ids; [set_solver | done].
  - apply dedupFrom_find. set_solver.
Qed.

Lemma C1_load_save_keeps_first_occurrence_witness :
  storageFails C1Example.browser = false
  ∧ localStorage C1Example.browser !! ThreadStore.getThreadsStorageKey "u1"
      = Some (ThreadsJson C1Example.persisted)
  ∧ ∃ saved th',
      localStorage
        (ThreadStore.saveThreads "u1" C1Example.browser
           (ThreadStore.loadThreads "u1" C1Example.browser ThreadStore.initial))
        !! ThreadStore.getThreadsStorageKey "u1"
      = Some (ThreadsJson saved)
      ∧ th' ∈ saved
      ∧ thread_id th' = "thread_1"
      ∧ ThreadStore.countId "msg_1" (messages th') = 1%nat
      ∧ List.find (ThreadStore.hasId "msg_1") (messages th')
        = Some C1Example.first.
Proof.
  assert (H1 : storageFails C1Example.browser = false) by reflexivity.
  assert (H2 : localStorage C1Example.browser
                 !! ThreadStore.getThreadsStorageKey "u1"
               = Some (ThreadsJson C1Example.persisted)) by reflexivity.
  split; [exact H1 |]. split; [exact H2 |].
  destruct (C1_load_save_keeps_first_occurrence
              "u1" C1Example.browser ThreadStore.initial C1Example.persisted H1 H2)
    as (saved & Hsaved & _ & _ & Hall).
  destruct (Hall (mkThread "thread_1" "first"
                    [C1Example.first; C1Example.reply; C1Example.again] 5 12))
    as (th' & Hin & Hid & _ & _ & _ & _ & _ & Hmsgs).
  { apply list_elem_of_In. simpl. left. reflexivity. }
  destruct (Hmsgs "msg_1") as [Hcount Hfind].
  { apply list_elem_of_In. simpl. left. reflexivity. }
  exists saved, th'. repeat split; assumption.
Defined.

(** ** Appending messages *)

Section Append.
Import ThreadStore.

Lemma countId_app i ms1 ms2 :
  countId i (ms1 ++ ms2) = (countId i ms1 + countId i ms2)%nat.
Proof. unfold countId. by rewrite List.filter_app, length_app. Qed.

Lemma existsb_countId i ms :
  existsb (λ m, bool_decide (msg_id m = i)) ms = false ↔ countId i ms = 0%nat.
Proof.
  unfold countId, hasId. induction ms as [|m ms IH]; simpl; [done |].
  case_bool_decide; simpl; [split; discriminate | exact IH].
Qed.

(** With a truthy explicit id, [addMessage] generates nothing. *)
Lemma addMessage_explicit threadId message i b s :
  i ≠ "" →
  addMessage threadId message (Some i) b s =
    (mk (map (addTo threadId message
                (mkMessage i (in_role message) (in_content message) (clock b))
                (clock b))
             (threads s))
        (currentThreadId s),
     b).
Proof.
  intros Hi. unfold addMessage, truthy.
  by rewrite bool_decide_eq_false_2.
Qed.

(** What [addTo] does to the number of messages that carry the new id. *)
Lemma addTo_countId threadId message newMessage now th :
  thread_id th = threadId →
  countId (msg_id newMessage) (messages (addTo threadId message newMessage now th))
  = Nat.max 1 (countId (msg_id newMessage) (messages th)).
Proof.
  intros Hid. unfold addTo. rewrite bool_decide_eq_true_2 by done.
  destruct (existsb _ (messages th)) eqn:Hex.
  - destruct (countId (msg_id newMessage) (messages th)) eqn:Hc; [| lia].
    apply existsb_countId in Hc. congruence.
  - apply existsb_countId in Hex. simpl. rewrite countId_app, Hex. simpl.
    unfold countId, hasId. simpl. by rewrite bool_decide_eq_true_2.
Qed.

Lemma addTo_thread_id threadId message newMessage now th :
  thread_id (addTo threadId message newMessage now th) = thread_id th.
Proof. unfold addTo. case_bool_decide; [| done]. by destruct (existsb _ _). Qed.

(** A thread that already holds the id comes back as it is. *)
Lemma addTo_present threadId message newMessage now th :
  (thread_id th = threadId → countId (msg_id newMessage) (messages th) ≠ 0%nat) →
  addTo threadId message newMessage now th = th.
Proof.
  intros Hc. unfold addTo. case_bool_decide as Hid; [| done].
  destruct (existsb _ (messages th)) eqn:Hex; [done |].
  apply existsb_countId in Hex. by destruct (Hc Hid).
Qed.

End Append.

(** C2, as the code has it.  An explicit id that is the empty string is falsy,
    so [messageId || generateMessageId()] generates a fresh id for each of the
    two calls: both append, and no message carries the id that was passed. *)
Lemma C2_empty_id_appends_twice :
  let b0 := mkBrowser 100 0 ∅ false in
  let '(_, s0, b1) := ThreadStore.createThread None b0 ThreadStore.initial in
  let '(s1, b2) :=
    ThreadStore.addMessage "thread_1" (mkInput assistant "") (Some "") b1 s0 in
  let '(s2, b3) :=
    ThreadStore.addMessage "thread_1" (mkInput assistant "") (Some "") b2 s1 in
  s2 ≠ s1
  ∧ ∃ th, ThreadStore.getThread "thread_1" s2 = Some th
      ∧ map msg_id (messages th) = ["msg_2"; "msg_3"]
      ∧ ThreadStore.countId "" (messages th) ≠ 1%nat.
Proof.
  vm_compute. split; [discriminate |].
  eexists. split; [reflexivity |]. split; [reflexivity | discriminate].
Qed.

(** C2, amended.  For every non-empty explicit id and every store whose
    threads with the given thread id hold that message id at most once,
    calling [addMessage] twice with that id (whatever the two messages are,
    and whatever happens to the browser in between) leaves exactly one message
    with that id in each such thread; the second call changes neither the
    store nor the browser, and neither call draws a generated id. *)
Theorem C2_addMessage_twice_nonempty_id
    (threadId i : string) (m1 m2 : MessageInput) (b b' : Browser)
    (s : ThreadStore.t) :
  i ≠ "" →
  (∀ th, th ∈ ThreadStore.threads s → thread_id th = threadId →
         (ThreadStore.countId i (messages th) ≤ 1)%nat) →
  let r1 := ThreadStore.addMessage threadId m1 (Some i) b s in
  let r2 := ThreadStore.addMessage threadId m2 (Some i) b' r1.1 in
  r2.1 = r1.1 ∧ r2.2 = b' ∧ r1.2 = b
  ∧ map thread_id (ThreadStore.threads r2.1) = map thread_id (ThreadStore.threads s)
  ∧ ∀ th, th ∈ ThreadStore.threads r2.1 → thread_id th = threadId →
          ThreadStore.countId i (messages th) = 1%nat.
Proof.
  intros Hi Hle r1 r2. subst r1 r2.
  rewrite !addMessage_explicit by done. simpl.
  set (new1 := mkMessage i (in_role m1) (in_content m1) (clock b)).
  set (new2 := mkMessage i (in_role m2) (in_content m2) (clock b')).
  assert (Hone : ∀ th, th ∈ map (ThreadStore.addTo threadId m1 new1 (clock b))
                                (ThreadStore.threads s) →
                       thread_id th = threadId →
                       ThreadStore.countId i (messages th) = 1%nat).
  { intros th (th0 & -> & Hin)%list_elem_of_fmap Hid.
    rewrite addTo_thread_id in Hid.
    pose proof (addTo_countId threadId m1 new1 (clock b) th0 Hid) as Hc.
    simpl in Hc. specialize (Hle th0 Hin Hid). lia. }
  assert (Hsame : map (ThreadStore.addTo threadId m2 new2 (clock b'))
                      (map (ThreadStore.addTo threadId m1 new1 (clock b))
                           (ThreadStore.threads s))
                  = map (ThreadStore.addTo threadId m1 new1 (clock b))
                        (ThreadStore.threads s)).
  { rewrite <- (map_id (map _ (ThreadStore.threads s))) at 2.
    apply map_ext_in. intros th Hin%list_elem_of_In.
    apply addTo_present. intros Hid. simpl.
    rewrite (Hone th Hin Hid). discriminate. }
  rewrite Hsame. repeat split.
  - rewrite map_map. apply map_ext. intros th. apply addTo_thread_id.
  - exact Hone.
Qed.

Lemma C2_addMessage_twice_nonempty_id_witness :
  let s := ThreadStore.mk [mkThread "thread_1" "New Chat" [] 100 100]
                          (Some "thread_1") in
  let b := mkBrowser 100 1 ∅ false in
  let r1 := ThreadStore.addMessage "thread_1" (mkInput assistant "") (Some "msg_7") b s in
  let r2 := ThreadStore.addMessage "thread_1" (mkInput assistant "x") (Some "msg_7")
                                   (tick 5 b) r1.1 in
  r2.1 = r1.1
  ∧ ∀ th, th ∈ ThreadStore.threads r2.1 → thread_id th = "thread_1" →
          ThreadStore.countId "msg_7" (messages th) = 1%nat.
Proof.
  intros s b.
  destruct (C2_addMessage_twice_nonempty_id
              "thread_1" "msg_7" (mkInput assistant "") (mkInput assistant "x")
              b (tick 5 b) s) as (H1 & _ & _ & _ & H2).
  - discriminate.
  - intros th Hin _. apply list_elem_of_In in Hin. simpl in Hin.
    destruct Hin as [<- | []]. vm_compute. lia.
  - split; [exact H1 | exact H2].
Defined.

(** ** The order of the threads in memory *)

Section Order.
Import ThreadStore.

(** [createThread] keeps the list ordered when no thread is stamped later
    than the clock reads. *)
Lemma createThread_ordered title b s :
  recencyOrdered (threads s) →
  (∀ th, th ∈ threads s → updatedAt th ≤ clock b) →
  recencyOrdered (threads (createThread title b s).1.2).
Proof.
  intros Hs Hle. unfold createThread, recencyOrdered. simpl.
  constructor; [done |].
  destruct (threads s) as [|u l] eqn:E; constructor.
  unfold notOlder. simpl. apply Hle. by left.
Qed.

(** [loadThreads] leaves the list ordered: it installs a sorted list, or
    leaves the list alone. *)
Lemma loadThreads_ordered userId b s :
  recencyOrdered (threads s) → recencyOrdered (threads (loadThreads userId b s)).
Proof.
  intros Hs. unfold loadThreads.
  destruct (getItem _ b) as [[[txt|parsed]|]|]; simpl; try done.
  - by destruct (truthy txt).
  - apply sortByRecency_ordered.
Qed.

Lemma filter_ordered (P : ChatThread → Prop) `{∀ x, Decision (P x)} l :
  recencyOrdered l → recencyOrdered (filter P l).
Proof.
  unfold recencyOrdered. intros Hs%Sorted_StronglySorted.
  - apply StronglySorted_Sorted.
    induction Hs as [|th l Hs IH Hall]; [constructor |].
    rewrite filter_cons. case_decide; [| done].
    constructor; [done |].
    rewrite List.Forall_forall in *. intros u Hu%list_elem_of_In.
    apply list_elem_of_filter in Hu as [_ Hu]. by apply Hall, list_elem_of_In.
  - intros x y z. unfold notOlder. lia.
Qed.

(** On an ordered list, [deleteThread] does select a most recently updated
    remaining thread. *)
Lemma deleteThread_ordered_selects threadId s :
  recencyOrdered (threads s) →
  currentThreadId s = Some threadId →
  match threads (deleteThread threadId s) with
  | [] => currentThreadId (deleteThread threadId s) = None
  | first :: _ =>
      currentThreadId (deleteThread threadId s) = Some (thread_id first)
      ∧ ∀ u, u ∈ threads (deleteThread threadId s) → updatedAt u ≤ updatedAt first
  end.
Proof.
  intros Hs Hcur. unfold deleteThread. rewrite Hcur.
  rewrite bool_decide_eq_true_2 by done. simpl.
  pose proof (filter_ordered (λ th, thread_id th ≠ threadId) _ Hs) as Hf.
  destruct (filter _ (threads s)) as [|first rest] eqn:E; [done |].
  split; [done |]. intros u Hu. by eapply recencyOrdered_head.
Qed.

Lemma deleteThread_removes threadId s th :
  th ∈ threads (deleteThread threadId s) ↔ th ∈ threads s ∧ thread_id th ≠ threadId.
Proof. unfold deleteThread. simpl. rewrite list_elem_of_filter. tauto. Qed.

Lemma deleteThread_other threadId s :
  currentThreadId s ≠ Some threadId →
  currentThreadId (deleteThread threadId s) = currentThreadId s.
Proof. intros Hne. unfold deleteThread. by rewrite bool_decide_eq_false_2. Qed.

End Order.

(** C6, at a failing input.  After two [createThread] calls the list is
    [thread_2 (110); thread_1 (100)], in order.  [addMessage] on ["thread_1"]
    at time 120 refreshes that thread's [updatedAt] and leaves it where it is:
    the list becomes [thread_2 (110); thread_1 (120)], which is not in
    descending [updatedAt] order. *)
Theorem C6_addMessage_breaks_recency_order :
  let '(s, b) := Scenario.afterTwo in
  let s' := (ThreadStore.addMessage "thread_1" Scenario.hello None (tick 10 b) s).1 in
  ThreadStore.recencyOrdered (ThreadStore.threads s)
  ∧ map (λ th, (thread_id th, updatedAt th)) (ThreadStore.threads s')
    = [("thread_2", 110); ("thread_1", 120)]
  ∧ ¬ ThreadStore.recencyOrdered (ThreadStore.threads s').
Proof.
  simpl. split; [| split].
  - apply (bool_decide_unpack _). vm_compute. reflexivity.
  - vm_compute. reflexivity.
  - apply (bool_decide_eq_false_1 _). vm_compute. reflexivity.
Qed.

(** C7, at a failing input.  With three threads, the current one being
    ["thread_3"], a message is added to ["thread_1"] and then ["thread_3"] is
    deleted.  The remaining threads are [thread_2 (110); thread_1 (130)]; the
    most recently updated one is ["thread_1"], and [deleteThread] selects
    ["thread_2"], the head of the list. *)
Theorem C7_deleteThread_selects_head_not_most_recent :
  let '(s, b) := Scenario.afterThree in
  let s1 := (ThreadStore.addMessage "thread_1" Scenario.hello None (tick 10 b) s).1 in
  let s2 := ThreadStore.deleteThread "thread_3" s1 in
  ThreadStore.currentThreadId s1 = Some "thread_3"
  ∧ map (λ th, (thread_id th, updatedAt th)) (ThreadStore.threads s2)
    = [("thread_2", 110); ("thread_1", 130)]
  ∧ thread_id <$> mostRecentThread (ThreadStore.threads s2) = Some "thread_1"
  ∧ ThreadStore.currentThreadId s2 = Some "thread_2".
Proof. vm_compute. repeat split; reflexivity. Qed.

(** ** Updating a message *)

Section Update.
Import ThreadStore.

Lemma setContent_other messageId newContent ms :
  messageId ∉ map msg_id ms → map (setContent messageId newContent) ms = ms.
Proof.
  induction ms as [|m ms IH]; simpl; [done |].
  intros Hn. unfold setContent at 1.
  rewrite bool_decide_eq_false_2 by set_solver.
  f_equal. apply IH. set_solver.
Qed.

(** No thread with the id: nothing changes at all. *)
Lemma updateMessage_unknown_thread threadId messageId newContent b s :
  (∀ th, th ∈ threads s → thread_id th ≠ threadId) →
  updateMessage threadId messageId newContent b s = s.
Proof.
  intros Hn. unfold updateMessage. destruct s as [l cur]. simpl in *. f_equal.
  rewrite <- (map_id l) at 2. apply map_ext_in. intros th Hin%list_elem_of_In.
  by rewrite bool_decide_eq_false_2 by by apply Hn.
Qed.

End Update.

(** C8, as the code has it.  A thread stamped 100 holds the message ["msg_2"];
    at time 110, [updateMessage] for the id ["msg_9"], which the thread does
    not hold, leaves the messages alone and stamps the thread 110: the store
    is not what it was. *)
Lemma C8_unknown_message_refreshes_updatedAt :
  let m := mkMessage "msg_2" user "hello" 100 in
  let s := ThreadStore.mk [mkThread "thread_1" "hello" [m] 100 100] (Some "thread_1") in
  let b := mkBrowser 110 2 ∅ false in
  let s' := ThreadStore.updateMessage "thread_1" "msg_9" "text" b s in
  ThreadStore.countId "msg_9" [m] = 0%nat
  ∧ ThreadStore.threads s' = [mkThread "thread_1" "hello" [m] 100 110]
  ∧ s' ≠ s.
Proof.
  simpl. split; [| split].
  - reflexivity.
  - reflexivity.
  - discriminate.
Qed.

(** C8, amended.  When no thread with the given thread id holds the given
    message id, [updateMessage] changes no message, no title, no id, no
    creation time, no other thread, not the order of the threads and not the
    selection; it refreshes the [updatedAt] of every thread with that thread
    id to the current time. *)
Theorem C8_updateMessage_unknown_message
    (threadId messageId newContent : string) (b : Browser) (s : ThreadStore.t) :
  (∀ th, th ∈ ThreadStore.threads s → thread_id th = threadId →
         messageId ∉ map msg_id (messages th)) →
  ThreadStore.updateMessage threadId messageId newContent b s
  = ThreadStore.mk (map (touch threadId (clock b)) (ThreadStore.threads s))
                   (ThreadStore.currentThreadId s).
Proof.
  intros Hn. unfold ThreadStore.updateMessage. f_equal.
  apply map_ext_in. intros th Hin%list_elem_of_In. unfold touch.
  case_bool_decide as Hid; [| done].
  by rewrite setContent_other by by apply Hn.
Qed.

Lemma C8_updateMessage_unknown_message_witness :
  let m := mkMessage "msg_2" user "hello" 100 in
  let s := ThreadStore.mk [mkThread "thread_1" "hello" [m] 100 100] (Some "thread_1") in
  let b := mkBrowser 110 2 ∅ false in
  ThreadStore.updateMessage "thread_1" "msg_9" "text" b s
  = ThreadStore.mk [mkThread "thread_1" "hello" [m] 100 110] (Some "thread_1").
Proof.
  intros m s b.
  rewrite (C8_updateMessage_unknown_message "thread_1" "msg_9" "text" b s).
  - reflexivity.
  - intros th Hin _. apply list_elem_of_In in Hin. simpl in Hin.
    destruct Hin as [<- | []]. apply (bool_decide_unpack _). vm_compute.
    reflexivity.
Defined.

(** C10.  When [getItem] finds nothing under the owner's key, or finds text
    that is not the JSON of a thread array (empty, rejected by [JSON.parse],
    or of the wrong shape), or throws, [loadThreads] returns the store it was
    given: the same threads and the same selection. *)
Theorem C10_loadThreads_nothing_to_load
    (userId : string) (b : Browser) (s : ThreadStore.t) :
  (storageFails b = true
   ∨ localStorage b !! ThreadStore.getThreadsStorageKey userId = None
   ∨ ∃ txt, localStorage b !! ThreadStore.getThreadsStorageKey userId
            = Some (OtherText txt)) →
  ThreadStore.loadThreads userId b s = s.
Proof.
  unfold ThreadStore.loadThreads, getItem.
  intros [-> | [Hnone | [txt Htxt]]]; [done | |].
  - destruct (storageFails b); [done |]. by rewrite Hnone.
  - destruct (storageFails b); [done |]. rewrite Htxt. by destruct (truthy txt).
Qed.

Lemma C10_loadThreads_nothing_to_load_witness :
  let s := Scenario.afterThree.1 in
  let key := ThreadStore.getThreadsStorageKey "u1" in
  ThreadStore.loadThreads "u1" (mkBrowser 200 3 ∅ false) s = s
  ∧ ThreadStore.loadThreads "u1" (mkBrowser 200 3 {[ key := OtherText "{oops" ]} false) s = s.
Proof.
  intros s key. split.
  - apply C10_loadThreads_nothing_to_load. right. left. reflexivity.
  - apply C10_loadThreads_nothing_to_load. right. right.
    exists "{oops". reflexivity.
Defined.

(** ** The streaming client *)

Section ClientFacts.
Import ChatService.
Variable parseChunk : string → option (option string).

Lemma string_app_assoc (a b c : string) : (a +:+ b) +:+ c = a +:+ (b +:+ c).
Proof.
  induction a as [|x a IH]; [done |].
  change (String x ((a +:+ b) +:+ c) = String x (a +:+ (b +:+ c))).
  by rewrite IH.
Qed.

Lemma string_app_empty_r (a : string) : a +:+ "" = a.
Proof.
  induction a as [|x a IH]; [done |].
  change (String x (a +:+ "") = String x a). by rewrite IH.
Qed.

Lemma cumulative_length acc fs : length (cumulative acc fs) = length fs.
Proof. revert acc. induction fs as [|f fs IH]; intros acc; simpl; [done | by rewrite IH]. Qed.

Lemma cumulative_lookup acc fs i :
  (i < length fs)%nat →
  cumulative acc fs !! i = Some (acc +:+ joinAll (take (S i) fs)).
Proof.
  revert acc i. induction fs as [|f fs IH]; intros acc i Hi; simpl in *; [lia |].
  destruct i as [|i]; simpl.
  - by rewrite string_app_empty_r.
  - rewrite IH by lia. by rewrite string_app_assoc.
Qed.

Lemma cumulative_last acc fs :
  fs ≠ [] → last (cumulative acc fs) = Some (acc +:+ joinAll fs).
Proof.
  revert acc. induction fs as [|f fs IH]; intros acc Hne; [done |].
  destruct fs as [|g fs].
  - simpl. by rewrite string_app_empty_r.
  - change (cumulative acc (f :: g :: fs))
      with ((acc +:+ f) :: cumulative (acc +:+ f) (g :: fs)).
    rewrite last_cons, IH by done. simpl. by rewrite !string_app_assoc.
Qed.

(** What [onmessage] does, by the fragment the event carries. *)
Lemma onmessage_fragment data acc :
  onmessage parseChunk data acc =
    match fragmentOf parseChunk data with
    | Some c =>
        if truthy c then (acc +:+ c, [JsonParse data; OnChunk (acc +:+ c)])
        else (acc, [JsonParse data])
    | None =>
        if bool_decide (data = "[DONE]") then (acc, []) else (acc, [JsonParse data])
    end.
Proof.
  unfold onmessage, fragmentOf. case_bool_decide; [done |].
  by destruct (parseChunk data) as [[c|]|].
Qed.

(** What a message event does to a client in flight. *)
Lemma deliver_message data acc :
  deliver parseChunk (Message data) (mkClient acc Streaming) =
    match fragmentOf parseChunk data with
    | Some c =>
        if truthy c
        then (mkClient (acc +:+ c) Streaming, [JsonParse data; OnChunk (acc +:+ c)])
        else (mkClient acc Streaming, [JsonParse data])
    | None =>
        (mkClient acc Streaming,
         if bool_decide (data = "[DONE]") then [] else [JsonParse data])
    end.
Proof.
  unfold deliver. simpl. rewrite onmessage_fragment.
  destruct (fragmentOf parseChunk data) as [c|]; [by destruct (truthy c) |].
  by case_bool_decide.
Qed.

Lemma fragmentOf_not_done data c : fragmentOf parseChunk data = Some c → data ≠ "[DONE]".
Proof. unfold fragmentOf. intros Hf ->. by rewrite bool_decide_eq_true_2 in Hf. Qed.

Lemma run_app evs1 evs2 c :
  run parseChunk (evs1 ++ evs2) c =
    let r1 := run parseChunk evs1 c in
    let r2 := run parseChunk evs2 r1.1 in
    (r2.1, r1.2 ++ r2.2).
Proof.
  revert c. induction evs1 as [|ev evs1 IH]; intros c; simpl.
  - by destruct (run parseChunk evs2 c).
  - rewrite IH. simpl. by rewrite app_assoc.
Qed.

(** A stream that has ended, in whichever way, runs no handler any more. *)
Lemma deliver_finished ev c :
  status c ≠ Streaming → deliver parseChunk ev c = (c, []).
Proof. unfold deliver. by destruct (status c). Qed.

Lemma run_finished evs c :
  status c ≠ Streaming → run parseChunk evs c = (c, []).
Proof.
  intros Hc. induction evs as [|ev evs IH]; simpl; [done |].
  rewrite deliver_finished by done. simpl. by rewrite IH.
Qed.

(** The run of a stream of message events from a client in flight. *)
Lemma run_messages datas acc :
  let r := run parseChunk (map Message datas) (mkClient acc Streaming) in
  r.1 = mkClient (acc +:+ joinAll (nonEmptyFragments parseChunk datas)) Streaming
  ∧ chunksOf r.2 = cumulative acc (nonEmptyFragments parseChunk datas)
  ∧ List.filter isComplete r.2 = []
  ∧ List.filter isError r.2 = [].
Proof.
  revert acc. induction datas as [|d datas IH]; intros acc; simpl.
  - by rewrite string_app_empty_r.
  - rewrite deliver_message. unfold nonEmptyFragments, fragments. simpl.
    destruct (fragmentOf parseChunk d) as [c|] eqn:Hf; simpl.
    + destruct (truthy c) eqn:Hc; simpl.
      * destruct (IH (acc +:+ c)) as (H1 & H2 & H3 & H4).
        rewrite H1, H3, H4. rewrite string_app_assoc. repeat split; try done.
        unfold chunksOf in *. simpl. by rewrite H2.
      * apply IH.
    + destruct (IH acc) as (H1 & H2 & H3 & H4).
      case_bool_decide; simpl; done.
Qed.

(** The calls one report of the transport can cause. *)
Lemma deliver_calls ev c x :
  x ∈ (deliver parseChunk ev c).2 →
  match ev with
  | Message data =>
      data ≠ "[DONE]" ∧ (x = JsonParse data ∨ ∃ text, x = OnChunk text)
  | EndOfBody => x = OnComplete
  | Failure _ => ∃ e, x = OnError e
  | AbortSignal => False
  end.
Proof.
  unfold deliver. destruct (status c); simpl; try by intros ?%elem_of_nil.
  destruct ev as [data| |err|]; simpl.
  - rewrite onmessage_fragment.
    destruct (fragmentOf parseChunk data) as [f|] eqn:Hf.
    + apply fragmentOf_not_done in Hf. destruct (truthy f); simpl; set_solver.
    + case_bool_decide; simpl; set_solver.
  - unfold onclose. set_solver.
  - unfold onerror, catchHandler.
    destruct err as [e|t]; [case_bool_decide |]; set_solver.
  - by intros ?%elem_of_nil.
Qed.

(** The terminator is never handed to [JSON.parse], in any run. *)
Lemma run_never_parses_done evs c : JsonParse "[DONE]" ∉ (run parseChunk evs c).2.
Proof.
  revert c. induction evs as [|ev evs IH]; intros c; simpl; [apply not_elem_of_nil |].
  rewrite elem_of_app. intros [Hin | Hin]; [| by eapply IH].
  apply deliver_calls in Hin. destruct ev; naive_solver.
Qed.

End ClientFacts.

(** C9.  The handler compares the payload with the terminator before anything
    else: for an event whose payload is exactly ["[DONE]"] the client makes no
    call at all and stays as it is, so the payload does not reach
    [JSON.parse] (in no run does it) and [onChunk] is not called for it.  A
    stream of events that ends with the terminator, followed by the end of the
    response body, calls [onComplete] exactly once and [onError] never,
    whatever the transport reports after that; the [onChunk] calls are those
    of the events before the terminator. *)
Theorem C9_terminator_not_parsed_and_completes_once
    (parseChunk : string → option (option string)) :
  (∀ c, ChatService.deliver parseChunk (ChatService.Message "[DONE]") c = (c, []))
  ∧ (∀ evs c,
       ChatService.JsonParse "[DONE]" ∉ (ChatService.run parseChunk evs c).2)
  ∧ (∀ datas more,
       let r := ChatService.run parseChunk
                  (map ChatService.Message (datas ++ ["[DONE]"])
                   ++ ChatService.EndOfBody :: more)
                  ChatService.streamChatCompletion in
       List.filter ChatService.isComplete r.2 = [ChatService.OnComplete]
       ∧ List.filter ChatService.isError r.2 = []
       ∧ ChatService.status r.1 = ChatService.Completed
       ∧ ChatService.chunksOf r.2
         = ChatService.chunksOf
             (ChatService.run parseChunk (map ChatService.Message datas)
                              ChatService.streamChatCompletion).2).
Proof.
  split; [| split].
  - intros [acc []]; reflexivity.
  - apply run_never_parses_done.
  - intros datas more r. subst r. unfold ChatService.streamChatCompletion.
    rewrite map_app, <- app_assoc. simpl.
    rewrite run_app. simpl.
    destruct (run_messages parseChunk datas "") as (H1 & H2 & H3 & H4).
    rewrite H1. simpl.
    rewrite (run_finished parseChunk more) by (simpl; congruence). simpl.
    rewrite !List.filter_app, H3, H4. simpl.
    split; [done |]. split; [done |]. split; [done |].
    unfold ChatService.chunksOf. rewrite omap_app. simpl. by rewrite app_nil_r.
Qed.

(** ** The hook *)

Section HookFacts.
Import ChatService ChatHooks.
Variable parseChunk : string → option (option string).

Lemma session_eta ss :
  mkSession (s_threadId ss) (s_messageId ss) (s_user ss) (s_request ss) (s_client ss) = ss.
Proof. by destruct ss. Qed.

Lemma app_eta a :
  mkApp (store a) (browser a) (authUser a) (hook a) (sessions a) = a.
Proof. by destruct a. Qed.

(** No callback touches the list of streams. *)
Lemma perform_sessions ss c a : sessions (perform ss c a) = sessions a.
Proof.
  destruct c; simpl; try done.
  unfold onError. by case_bool_decide.
Qed.

Lemma performAll_sessions ss calls a :
  sessions (foldl (λ acc c, perform ss c acc) a calls) = sessions a.
Proof.
  revert a. induction calls as [|c calls IH]; intros a; simpl; [done |].
  by rewrite IH, perform_sessions.
Qed.

(** A report to a stream that has ended changes nothing. *)
Lemma transportEvent_finished k ev a ss :
  sessions a !! k = Some ss → status (s_client ss) ≠ Streaming →
  transportEvent parseChunk k ev a = a.
Proof.
  intros Hk Hs. unfold transportEvent. rewrite Hk.
  rewrite deliver_finished by done. simpl.
  rewrite session_eta, list_insert_id by done. apply app_eta.
Qed.

Lemma transportEvent_sessions k ev a :
  sessions (transportEvent parseChunk k ev a) =
    match sessions a !! k with
    | Some ss =>
        <[k := mkSession (s_threadId ss) (s_messageId ss) (s_user ss) (s_request ss)
                         (deliver parseChunk ev (s_client ss)).1]> (sessions a)
    | None => sessions a
    end.
Proof.
  unfold transportEvent. destruct (sessions a !! k) as [ss|]; [| done].
  destruct (deliver parseChunk ev (s_client ss)) as [c' calls]. simpl.
  by rewrite performAll_sessions.
Qed.

Lemma transportEvent_keeps_finished j ev a k ss :
  sessions a !! k = Some ss → status (s_client ss) ≠ Streaming →
  sessions (transportEvent parseChunk j ev a) !! k = Some ss.
Proof.
  intros Hk Hs. destruct (decide (j = k)) as [->|Hne].
  - by erewrite transportEvent_finished.
  - rewrite transportEvent_sessions. destruct (sessions a !! j); [| done].
    by rewrite list_lookup_insert_ne.
Qed.

Lemma sendMessage_sessions content a :
  sessions (sendMessage content a) = sessions a
  ∨ ∃ ss, sessions (sendMessage content a) = sessions a ++ [ss].
Proof.
  unfold sendMessage. destruct (negb (truthy (trim content))); [by left |].
  destruct (ThreadStore.currentThreadId (store a)) as [tid|]; [| by left].
  destruct (authUser a) as [u|]; [| by left].
  destruct (negb (truthy tid)); [by left |].
  destruct (isStreaming (hook a)); [by left |].
  destruct (ThreadStore.getCurrentThread (store a)); [| by left].
  unfold startStream.
  destruct (ThreadStore.getCurrentThread _); simpl; [right; eauto | by left].
Qed.

(** Once a stream has ended, nothing that happens to the application brings
    it back. *)
Lemma step_keeps_finished act a k ss :
  sessions a !! k = Some ss → status (s_client ss) ≠ Streaming →
  sessions (step parseChunk act a) !! k = Some ss.
Proof.
  intros Hk Hs. destruct act as [content| |j ev|d]; simpl.
  - destruct (sendMessage_sessions content a) as [-> | [new ->]]; [done |].
    by apply lookup_app_l_Some.
  - unfold abort. destruct (abortRef (hook a)) as [j|]; [| done].
    simpl. by apply transportEvent_keeps_finished.
  - by apply transportEvent_keeps_finished.
  - done.
Qed.

Lemma steps_keep_finished acts a k ss :
  sessions a !! k = Some ss → status (s_client ss) ≠ Streaming →
  sessions (steps parseChunk acts a) !! k = Some ss.
Proof.
  revert a. induction acts as [|act acts IH]; intros a Hk Hs; simpl; [done |].
  apply IH; [| done]. by apply step_keeps_finished.
Qed.

(** What [abort] of the hook does to the stream [abortRef] names. *)
Lemma abort_in_flight a k ss :
  abortRef (hook a) = Some k → sessions a !! k = Some ss →
  status (s_client ss) = Streaming →
  abort parseChunk a =
    mkApp (store a) (browser a) (authUser a)
          (mkHook false (error (hook a)) None None)
          (<[k := mkSession (s_threadId ss) (s_messageId ss) (s_user ss) (s_request ss)
                            (mkClient (accumulatedContent (s_client ss)) Aborted)]>
             (sessions a)).
Proof.
  intros Hr Hk Hs. unfold abort, transportEvent. rewrite Hr, Hk.
  unfold deliver. rewrite Hs. reflexivity.
Qed.

End HookFacts.

(** C4.  When [sendMessage] is called while the in-flight flag is set, the
    call ends in one of its three first checks: the error it sets is a
    validation error, and nothing else changes: not the threads nor the
    selection (no user message, no placeholder), not the browser (no id is
    drawn, nothing is saved), not the list of streams (none is started), and
    not the flag or the refs of the hook. *)
Theorem C4_send_while_streaming_is_rejected
    (content : string) (a : ChatHooks.App) :
  ChatHooks.isStreaming (ChatHooks.hook a) = true →
  let a' := ChatHooks.sendMessage content a in
  (∃ e, ChatHooks.error (ChatHooks.hook a') = Some e
        ∧ ChatHooks.isValidation e = true)
  ∧ ChatHooks.store a' = ChatHooks.store a
  ∧ ChatHooks.browser a' = ChatHooks.browser a
  ∧ ChatHooks.sessions a' = ChatHooks.sessions a
  ∧ ChatHooks.authUser a' = ChatHooks.authUser a
  ∧ ChatHooks.isStreaming (ChatHooks.hook a') = true
  ∧ ChatHooks.abortRef (ChatHooks.hook a') = ChatHooks.abortRef (ChatHooks.hook a)
  ∧ ChatHooks.currentMessageIdRef (ChatHooks.hook a')
    = ChatHooks.currentMessageIdRef (ChatHooks.hook a).
Proof.
  intros Hs a'. subst a'. unfold ChatHooks.sendMessage.
  destruct (negb (truthy (trim content))).
  { simpl. split; [eexists; split; [reflexivity | by vm_compute] | done]. }
  destruct (ThreadStore.currentThreadId (ChatHooks.store a)) as [tid|];
    [| simpl; split; [eexists; split; [reflexivity | by vm_compute] | done]].
  destruct (ChatHooks.authUser a) as [u|] eqn:Hu;
    [| simpl; split; [eexists; split; [reflexivity | by vm_compute] | by rewrite Hu]].
  destruct (negb (truthy tid));
    [simpl; split; [eexists; split; [reflexivity | by vm_compute] | by rewrite Hu] |].
  rewrite Hs. simpl. split; [eexists; split; [reflexivity | by vm_compute] |].
  by rewrite Hu.
Qed.

Lemma C4_send_while_streaming_is_rejected_witness :
  ChatHooks.isStreaming (ChatHooks.hook Example.sending) = true
  ∧ ChatHooks.store (ChatHooks.sendMessage "again" Example.sending)
    = ChatHooks.store Example.sending
  ∧ ChatHooks.sessions (ChatHooks.sendMessage "again" Example.sending)
    = ChatHooks.sessions Example.sending.
Proof.
  assert (H : ChatHooks.isStreaming (ChatHooks.hook Example.sending) = true)
    by reflexivity.
  split; [exact H |].
  destruct (C4_send_while_streaming_is_rejected "again" Example.sending H)
    as (_ & Hstore & _ & Hsessions & _).
  split; [exact Hstore | exact Hsessions].
Defined.

(** ** Cancellation *)

Section AbortFacts.
Import ChatService.
Variable parseChunk : string → option (option string).

(** A client that has gone through [evs] and is still in flight has called
    neither [onComplete] nor [onError]. *)
Lemma run_in_flight evs c :
  status (run parseChunk evs c).1 = Streaming →
  List.filter isComplete (run parseChunk evs c).2 = []
  ∧ List.filter isError (run parseChunk evs c).2 = [].
Proof.
  revert c. induction evs as [|ev evs IH]; intros c; simpl; [done |].
  intros Hs. rewrite !List.filter_app.
  destruct (decide (status (deliver parseChunk ev c).1 = Streaming)) as [Hd|Hd].
  - destruct (IH _ Hs) as [-> ->]. rewrite !app_nil_r.
    destruct c as [acc st]. unfold deliver in *. simpl in *.
    destruct st; try done.
    destruct ev as [data| |err|]; try done. simpl.
    rewrite onmessage_fragment.
    destruct (fragmentOf parseChunk data) as [f|]; [by destruct (truthy f) |].
    by case_bool_decide.
  - rewrite run_finished in Hs by done. done.
Qed.

(** From the abort on, the client calls nothing. *)
Lemma run_after_abort post c :
  status c = Streaming →
  run parseChunk (AbortSignal :: post) c = (mkClient (accumulatedContent c) Aborted, []).
Proof.
  intros Hs. simpl. unfold deliver at 1 2 3. rewrite Hs. simpl.
  by rewrite run_finished.
Qed.

End AbortFacts.

(** ** Chunks reaching the store *)

Section ChunkFacts.
Import ThreadStore.

Lemma setContent_id messageId text m : msg_id (setContent messageId text m) = msg_id m.
Proof. unfold setContent. by case_bool_decide. Qed.

Lemma updateMessage_content threadId messageId text b s th m :
  th ∈ threads (updateMessage threadId messageId text b s) →
  thread_id th = threadId → m ∈ messages th → msg_id m = messageId →
  content m = text.
Proof.
  unfold updateMessage. simpl.
  intros (th0 & -> & Hin)%list_elem_of_fmap Hid.
  case_bool_decide as Ht; simpl in *.
  - intros (m0 & -> & Hm0)%list_elem_of_fmap. rewrite setContent_id.
    intros Hm. unfold setContent. by rewrite bool_decide_eq_true_2.
  - done.
Qed.

Lemma updateMessage_holds threadId messageId tid mid text b s :
  holds tid mid s → holds tid mid (updateMessage threadId messageId text b s).
Proof.
  intros (th & m & Hth & Hid & Hm & Hmid). unfold updateMessage, holds. simpl.
  case (bool_decide_reflect (thread_id th = threadId)) as [Ht|Ht].
  - exists (mkThread (thread_id th) (title th)
                     (map (setContent messageId text) (messages th))
                     (createdAt th) (clock b)),
           (setContent messageId text m).
    split; [| split; [done | split]].
    + apply list_elem_of_fmap. exists th. by rewrite bool_decide_eq_true_2.
    + simpl. apply list_elem_of_fmap. eauto.
    + by rewrite setContent_id.
  - exists th, m. split; [| done].
    apply list_elem_of_fmap. exists th. by rewrite bool_decide_eq_false_2.
Qed.

Lemma applyChunks_holds threadId messageId b texts s :
  holds threadId messageId s → holds threadId messageId (applyChunks threadId messageId b texts s).
Proof.
  unfold applyChunks. revert s.
  induction texts as [|text texts IH]; intros s Hs; simpl; [done |].
  by apply IH, updateMessage_holds.
Qed.

(** After a run of chunks, the message reads as the last chunk. *)
Lemma applyChunks_content threadId messageId b texts final s th m :
  last texts = Some final →
  th ∈ threads (applyChunks threadId messageId b texts s) →
  thread_id th = threadId → m ∈ messages th → msg_id m = messageId →
  content m = final.
Proof.
  unfold applyChunks. intros Hlast.
  destruct texts as [|t ts] using rev_ind; [done |].
  rewrite last_snoc in Hlast. injection Hlast as ->.
  rewrite foldl_app. simpl. apply updateMessage_content.
Qed.

(** Looking a thread up by id, through a change that keeps the thread ids. *)
Lemma find_thread_map (f : ChatThread → ChatThread) i l :
  (∀ th, thread_id (f th) = thread_id th) →
  List.find (λ th, bool_decide (thread_id th = i)) (map f l)
  = f <$> List.find (λ th, bool_decide (thread_id th = i)) l.
Proof.
  intros Hf. induction l as [|th l IH]; simpl; [done |].
  rewrite Hf. by case_bool_decide.
Qed.

Lemma find_thread_Some i l th :
  List.find (λ th, bool_decide (thread_id th = i)) l = Some th →
  th ∈ l ∧ thread_id th = i.
Proof.
  intros [Hin Hb]%List.find_some. split; [by apply list_elem_of_In |].
  by apply bool_decide_eq_true in Hb.
Qed.

Lemma addMessage_threads threadId message messageId b s :
  ∃ newMessage,
    threads (addMessage threadId message messageId b s).1
    = map (addTo threadId message newMessage (clock (addMessage threadId message messageId b s).2))
          (threads s)
    ∧ msg_id newMessage
      = match messageId with
        | Some i => if truthy i then i else (ThreadUtils.generateMessageId b).1
        | None => (ThreadUtils.generateMessageId b).1
        end.
Proof.
  unfold addMessage.
  destruct messageId as [i|]; [destruct (truthy i) |]; simpl; eauto.
Qed.

Lemma addMessage_currentThreadId threadId message messageId b s :
  currentThreadId (addMessage threadId message messageId b s).1 = currentThreadId s.
Proof.
  unfold addMessage.
  by destruct messageId as [i|]; [destruct (truthy i) |].
Qed.

(** [addMessage] keeps the current thread resolvable. *)
Lemma addMessage_getCurrentThread threadId message messageId b s th :
  getCurrentThread s = Some th →
  ∃ th', getCurrentThread (addMessage threadId message messageId b s).1 = Some th'
         ∧ thread_id th' = thread_id th.
Proof.
  unfold getCurrentThread. rewrite addMessage_currentThreadId.
  destruct (currentThreadId s) as [cur|]; [| done].
  destruct (truthy cur); [| done].
  destruct (addMessage_threads threadId message messageId b s) as (nm & -> & _).
  rewrite find_thread_map by apply addTo_thread_id.
  intros ->. simpl. eexists. split; [done |]. apply addTo_thread_id.
Qed.

(** After [addMessage] with a truthy explicit id, a thread with the given
    thread id holds a message with that id. *)
Lemma addMessage_holds threadId message i b s th :
  i ≠ "" → th ∈ threads s → thread_id th = threadId →
  holds threadId i (addMessage threadId message (Some i) b s).1.
Proof.
  intros Hi Hin Hid. rewrite addMessage_explicit by done. simpl.
  set (new := mkMessage i (in_role message) (in_content message) (clock b)).
  assert (∃ m, m ∈ messages (addTo threadId message new (clock b) th) ∧ msg_id m = i)
    as (m & Hm & Hmi).
  { unfold addTo. rewrite bool_decide_eq_true_2 by done.
    destruct (existsb _ (messages th)) eqn:Hex.
    - apply List.existsb_exists in Hex as (m & Hm & Hb).
      apply bool_decide_eq_true in Hb. exists m. split; [by apply list_elem_of_In | done].
    - exists new. split; [| done]. simpl. apply elem_of_app. right. by left. }
  exists (addTo threadId message new (clock b) th), m.
  split; [apply list_elem_of_fmap; eauto |].
  split; [by rewrite addTo_thread_id | done].
Qed.

End ChunkFacts.

Section SendFacts.
Import ChatService ChatHooks.
Variable parseChunk : string → option (option string).

(** What a successful [sendMessage] leaves behind: a new stream at the end
    of the list, in flight with nothing accumulated, closed over the current
    thread and the placeholder, which the thread holds. *)
Lemma sendMessage_starts content a tid u th0 :
  truthy (trim content) = true →
  ThreadStore.currentThreadId (store a) = Some tid → truthy tid = true →
  authUser a = Some u → isStreaming (hook a) = false →
  ThreadStore.getCurrentThread (store a) = Some th0 →
  ∃ mid req,
    sessions (sendMessage content a)
    = sessions a ++ [mkSession tid mid u req streamChatCompletion]
    ∧ hook (sendMessage content a)
      = mkHook true None (Some (length (sessions a))) (Some mid)
    ∧ holds tid mid (store (sendMessage content a)).
Proof.
  intros Hc Hcur Htid Hu Hs Hth. unfold sendMessage.
  rewrite Hc, Hcur, Hu, Htid, Hs, Hth. simpl. unfold startStream.
  set (r1 := ThreadStore.addMessage tid (mkInput user (trim content)) None
                                    (browser a) (store a)).
  set (g := ThreadUtils.generateMessageId r1.2).
  set (r2 := ThreadStore.addMessage tid (mkInput assistant "") (Some g.1) g.2 r1.1).
  destruct (addMessage_getCurrentThread tid (mkInput user (trim content)) None
              (browser a) (store a) th0 Hth) as (th1 & Hth1 & Hid1).
  pose proof Hth1 as Hfind. unfold ThreadStore.getCurrentThread in Hfind.
  rewrite addMessage_currentThreadId, Hcur, Htid in Hfind.
  apply find_thread_Some in Hfind as [Hin1 Hidt].
  fold r1 in Hth1, Hin1.
  destruct (addMessage_getCurrentThread tid (mkInput assistant "") (Some g.1)
              g.2 r1.1 th1 Hth1) as (th2 & Hth2 & Hid2).
  fold r2 in Hth2. rewrite Hth2. cbn [sessions hook store].
  exists g.1, (convertMessagesToOpenAIFormat (List.filter sendable (messages th2))).
  split; [done |]. split; [done |].
  subst r2.
  apply (addMessage_holds tid _ g.1 g.2 r1.1 th1); done.
Qed.

(** A message event for a stream in flight. *)
Lemma transportEvent_message k d a ss acc :
  sessions a !! k = Some ss → s_client ss = mkClient acc Streaming →
  transportEvent parseChunk k (Message d) a =
    match fragmentOf parseChunk d with
    | Some c =>
        if truthy c then
          mkApp (ThreadStore.updateMessage (s_threadId ss) (s_messageId ss)
                                           (acc +:+ c) (browser a) (store a))
                (browser a) (authUser a) (hook a)
                (<[k := mkSession (s_threadId ss) (s_messageId ss) (s_user ss)
                                  (s_request ss) (mkClient (acc +:+ c) Streaming)]>
                   (sessions a))
        else a
    | None => a
    end.
Proof.
  intros Hk Hc. unfold transportEvent. rewrite Hk, Hc, deliver_message.
  assert (Hsame : mkApp (store a) (browser a) (authUser a) (hook a)
                        (<[k := mkSession (s_threadId ss) (s_messageId ss) (s_user ss)
                                          (s_request ss) (mkClient acc Streaming)]>
                           (sessions a)) = a).
  { rewrite <- Hc, session_eta, list_insert_id by done. apply app_eta. }
  destruct (fragmentOf parseChunk d) as [c|].
  - destruct (truthy c); simpl; [done | exact Hsame].
  - case_bool_decide; simpl; exact Hsame.
Qed.

(** A run of message events for a stream in flight: the store receives the
    cumulative texts, one [updateMessage] each, and nothing else changes. *)
Lemma transportEvents_messages k datas a ss acc :
  sessions a !! k = Some ss → s_client ss = mkClient acc Streaming →
  let a' := foldl (λ x d, transportEvent parseChunk k (Message d) x) a datas in
  store a' = applyChunks (s_threadId ss) (s_messageId ss) (browser a)
                         (cumulative acc (nonEmptyFragments parseChunk datas))
                         (store a)
  ∧ browser a' = browser a ∧ hook a' = hook a ∧ authUser a' = authUser a.
Proof.
  revert a ss acc. induction datas as [|d datas IH]; intros a ss acc Hk Hc; simpl; [done |].
  rewrite (transportEvent_message k d a ss acc) by done.
  unfold nonEmptyFragments, fragments. simpl.
  destruct (fragmentOf parseChunk d) as [c|]; simpl; [| by apply (IH a ss acc)].
  destruct (truthy c); simpl; [| by apply (IH a ss acc)].
  set (ss' := mkSession (s_threadId ss) (s_messageId ss) (s_user ss)
                        (s_request ss) (mkClient (acc +:+ c) Streaming)).
  set (a1 := mkApp _ _ _ _ _).
  destruct (IH a1 ss' (acc +:+ c)) as (H1 & H2 & H3 & H4).
  - simpl. apply list_lookup_insert_eq. by eapply lookup_lt_Some.
  - done.
  - done.
Qed.

(** After a successful [sendMessage], message events for its stream leave
    their accumulated text in the placeholder. *)
Lemma placeholder_after_stream a text tid u th0 datas :
  truthy (trim text) = true →
  ThreadStore.currentThreadId (store a) = Some tid → truthy tid = true →
  authUser a = Some u → isStreaming (hook a) = false →
  ThreadStore.getCurrentThread (store a) = Some th0 →
  nonEmptyFragments parseChunk datas ≠ [] →
  let a1 := sendMessage text a in
  let a2 := foldl (λ x d, transportEvent parseChunk (length (sessions a))
                            (Message d) x) a1 datas in
  ∃ placeholderId,
    currentMessageIdRef (hook a1) = Some placeholderId
    ∧ holds tid placeholderId (store a2)
    ∧ ∀ th m,
        th ∈ ThreadStore.threads (store a2) → thread_id th = tid →
        m ∈ messages th → msg_id m = placeholderId →
        content m = joinAll (nonEmptyFragments parseChunk datas).
Proof.
  intros Hc Hcur Htid Hu Hs Hth Hne a1 a2.
  destruct (sendMessage_starts text a tid u th0 Hc Hcur Htid Hu Hs Hth)
    as (mid & req & Hsess & Hhook & Hholds).
  fold a1 in Hsess, Hhook, Hholds.
  set (ss := mkSession tid mid u req streamChatCompletion) in *.
  assert (Hk : sessions a1 !! length (sessions a) = Some ss).
  { rewrite Hsess. by apply list_lookup_middle. }
  destruct (transportEvents_messages (length (sessions a)) datas a1 ss "" Hk eq_refl)
    as (Hstore & _).
  fold a2 in Hstore. simpl in Hstore.
  exists mid. split; [by rewrite Hhook |]. rewrite Hstore.
  split; [by apply applyChunks_holds |].
  intros th m. apply applyChunks_content.
  by rewrite cumulative_last.
Qed.

End SendFacts.

(** C3, as the code has it.  [if (content)] skips a fragment that is the empty
    string.  For three events that carry the fragments ["a"], [""] and ["b"],
    [onChunk] is called twice, not three times, and its second call receives
    ["ab"], not the concatenation ["a"] of the first two fragments. *)
Lemma C3_empty_fragment_is_skipped :
  let datas := ["c:a"; "c:"; "c:b"] in
  let calls := (ChatService.run Example.parseExample
                  (map ChatService.Message datas)
                  ChatService.streamChatCompletion).2 in
  fragments Example.parseExample datas = ["a"; ""; "b"]
  ∧ ChatService.chunksOf calls = ["a"; "ab"]
  ∧ ChatService.chunksOf calls !! 1%nat
    ≠ Some (joinAll (take 2 (fragments Example.parseExample datas))).
Proof. split; [reflexivity | split; [reflexivity | discriminate]]. Qed.

(** C3, amended.  Let [f1, ..., fn] be the non-empty text fragments of the
    successfully parsed events of a stream, in arrival order (an event whose
    fragment is absent or empty calls nothing).  Then [onChunk] is called [n]
    times and its i-th call receives [f1 ++ ... ++ fi].  For events carrying
    ["Hel"], ["lo"], ["!"] the calls receive ["Hel"], ["Hello"], ["Hello!"].
    When [sendMessage] passes its checks and the events then reach its stream,
    the current thread holds the placeholder and every message with the
    placeholder's id in it ends with the content [f1 ++ ... ++ fn]; that is
    ["Hello!"] for the three events above. *)
Theorem C3_onChunk_receives_cumulative_text
    (parseChunk : string → option (option string)) :
  (∀ datas,
     let calls := (ChatService.run parseChunk (map ChatService.Message datas)
                     ChatService.streamChatCompletion).2 in
     let fs := nonEmptyFragments parseChunk datas in
     length (ChatService.chunksOf calls) = length fs
     ∧ ∀ i, (i < length fs)%nat →
            ChatService.chunksOf calls !! i = Some (joinAll (take (S i) fs)))
  ∧ (∀ d1 d2 d3,
       fragmentOf parseChunk d1 = Some "Hel" →
       fragmentOf parseChunk d2 = Some "lo" →
       fragmentOf parseChunk d3 = Some "!" →
       ChatService.chunksOf
         (ChatService.run parseChunk
            (map ChatService.Message [d1; d2; d3])
            ChatService.streamChatCompletion).2
       = ["Hel"; "Hello"; "Hello!"])
  ∧ (∀ a text tid u th0 datas,
       truthy (trim text) = true →
       ThreadStore.currentThreadId (ChatHooks.store a) = Some tid →
       truthy tid = true →
       ChatHooks.authUser a = Some u →
       ChatHooks.isStreaming (ChatHooks.hook a) = false →
       ThreadStore.getCurrentThread (ChatHooks.store a) = Some th0 →
       nonEmptyFragments parseChunk datas ≠ [] →
       let a1 := ChatHooks.sendMessage text a in
       let a2 := foldl (λ x d, ChatHooks.transportEvent parseChunk
                                 (length (ChatHooks.sessions a))
                                 (ChatService.Message d) x) a1 datas in
       ∃ placeholderId,
         ChatHooks.currentMessageIdRef (ChatHooks.hook a1) = Some placeholderId
         ∧ holds tid placeholderId (ChatHooks.store a2)
         ∧ ∀ th m,
             th ∈ ThreadStore.threads (ChatHooks.store a2) → thread_id th = tid →
             m ∈ messages th → msg_id m = placeholderId →
             content m = joinAll (nonEmptyFragments parseChunk datas))
  ∧ (∀ a text tid u th0 d1 d2 d3,
       truthy (trim text) = true →
       ThreadStore.currentThreadId (ChatHooks.store a) = Some tid →
       truthy tid = true →
       ChatHooks.authUser a = Some u →
       ChatHooks.isStreaming (ChatHooks.hook a) = false →
       ThreadStore.getCurrentThread (ChatHooks.store a) = Some th0 →
       fragmentOf parseChunk d1 = Some "Hel" →
       fragmentOf parseChunk d2 = Some "lo" →
       fragmentOf parseChunk d3 = Some "!" →
       let a1 := ChatHooks.sendMessage text a in
       let a2 := foldl (λ x d, ChatHooks.transportEvent parseChunk
                                 (length (ChatHooks.sessions a))
                                 (ChatService.Message d) x) a1 [d1; d2; d3] in
       ∃ placeholderId,
         ChatHooks.currentMessageIdRef (ChatHooks.hook a1) = Some placeholderId
         ∧ holds tid placeholderId (ChatHooks.store a2)
         ∧ ∀ th m,
             th ∈ ThreadStore.threads (ChatHooks.store a2) → thread_id th = tid →
             m ∈ messages th → msg_id m = placeholderId →
             content m = "Hello!").
Proof.
  split; [| split; [| split]].
  - intros datas calls fs. subst calls fs.
    destruct (run_messages parseChunk datas "") as (_ & H2 & _).
    unfold ChatService.streamChatCompletion. rewrite H2.
    split; [apply cumulative_length |].
    intros i Hi. by rewrite cumulative_lookup.
  - intros d1 d2 d3 H1 H2 H3.
    destruct (run_messages parseChunk [d1; d2; d3] "") as (_ & Hc & _).
    unfold ChatService.streamChatCompletion. rewrite Hc.
    unfold nonEmptyFragments, fragments. simpl. by rewrite H1, H2, H3.
  - apply placeholder_after_stream.
  - intros a text tid u th0 d1 d2 d3 Hc Hcur Htid Hu Hs Hth H1 H2 H3.
    assert (Hfs : nonEmptyFragments parseChunk [d1; d2; d3] = ["Hel"; "lo"; "!"]).
    { unfold nonEmptyFragments, fragments. simpl. by rewrite H1, H2, H3. }
    pose proof (placeholder_after_stream parseChunk a text tid u th0 [d1; d2; d3]
                  Hc Hcur Htid Hu Hs Hth) as Hall.
    rewrite Hfs in Hall. by apply Hall.
Qed.

Lemma C3_onChunk_receives_cumulative_text_witness :
  let a := ChatHooks.mkApp (ChatHooks.store Example.idle)
             (tick 10 (ChatHooks.browser Example.idle))
             (ChatHooks.authUser Example.idle) (ChatHooks.hook Example.idle)
             (ChatHooks.sessions Example.idle) in
  let a2 := foldl (λ x d, ChatHooks.transportEvent Example.parseExample 0
                            (ChatService.Message d) x)
                  (ChatHooks.sendMessage "Hi" a) ["c:Hel"; "c:lo"; "c:!"] in
  ChatService.chunksOf
    (ChatService.run Example.parseExample
       (map ChatService.Message ["c:Hel"; "c:lo"; "c:!"])
       ChatService.streamChatCompletion).2
  = ["Hel"; "Hello"; "Hello!"]
  ∧ holds "thread_1" "msg_3" (ChatHooks.store a2)
  ∧ ∀ th m,
      th ∈ ThreadStore.threads (ChatHooks.store a2) → thread_id th = "thread_1" →
      m ∈ messages th → msg_id m = "msg_3" → content m = "Hello!".
Proof.
  intros a a2.
  destruct (C3_onChunk_receives_cumulative_text Example.parseExample)
    as (_ & Hhello & _ & Hstore).
  split; [apply Hhello; reflexivity |].
  destruct (Hstore a "Hi" "thread_1" Example.joe
              (mkThread "thread_1" "New Chat" [] 100 100)
              "c:Hel" "c:lo" "c:!")
    as (mid & Hmid & Hholds & Hcontent);
    try reflexivity.
  injection Hmid as <-. split; [exact Hholds | exact Hcontent].
Defined.

(** ** Invariants *)

Section StoreInvariant.
Import ThreadStore.

Lemma countId_le_one i ms : NoDup (map msg_id ms) → (countId i ms ≤ 1)%nat.
Proof.
  intros Hnd. destruct (decide (i ∈ map msg_id ms)) as [Hin|Hout].
  - rewrite countId_NoDup by done. lia.
  - rewrite countId_absent by done. lia.
Qed.

Lemma wellFormed_initial : wellFormed initial.
Proof. intros th Hin. by apply elem_of_nil in Hin. Qed.

Lemma createThread_wellFormed title b s :
  wellFormed s → wellFormed (createThread title b s).1.2.
Proof.
  intros Hwf th. unfold createThread. simpl.
  intros [-> | Hin]%elem_of_cons; [constructor | by apply Hwf].
Qed.

Lemma addTo_NoDup threadId message newMessage now th :
  NoDup (map msg_id (messages th)) →
  NoDup (map msg_id (messages (addTo threadId message newMessage now th))).
Proof.
  intros Hnd. unfold addTo. case_bool_decide; [| done].
  destruct (existsb _ (messages th)) eqn:Hex; [done |]. simpl.
  rewrite map_app. simpl. apply NoDup_app. split; [done |].
  split; [| apply NoDup_singleton].
  intros i Hi ->%list_elem_of_singleton.
  apply existsb_countId in Hex. apply list_elem_of_fmap in Hi as (m & Hid & Hm).
  assert (countId (msg_id newMessage) (messages th) = 1%nat) as Hone.
  { apply countId_NoDup; [done |]. apply list_elem_of_fmap. eauto. }
  congruence.
Qed.

Lemma addMessage_wellFormed threadId message messageId b s :
  wellFormed s → wellFormed (addMessage threadId message messageId b s).1.
Proof.
  intros Hwf th.
  destruct (addMessage_threads threadId message messageId b s) as (nm & -> & _).
  intros (th0 & -> & Hin)%list_elem_of_fmap. by apply addTo_NoDup, Hwf.
Qed.

Lemma updateMessage_wellFormed threadId messageId text b s :
  wellFormed s → wellFormed (updateMessage threadId messageId text b s).
Proof.
  intros Hwf th. unfold updateMessage. simpl.
  intros (th0 & -> & Hin)%list_elem_of_fmap. case_bool_decide; [| by apply Hwf].
  simpl. rewrite map_map.
  rewrite (map_ext _ msg_id) by apply setContent_id. by apply Hwf.
Qed.

Lemma renameThread_wellFormed threadId newTitle s :
  wellFormed s → wellFormed (renameThread threadId newTitle s).
Proof.
  intros Hwf th. unfold renameThread. simpl.
  intros (th0 & -> & Hin)%list_elem_of_fmap. case_bool_decide; simpl; by apply Hwf.
Qed.

Lemma deleteThread_wellFormed threadId s :
  wellFormed s → wellFormed (deleteThread threadId s).
Proof. intros Hwf th [Hin _]%deleteThread_removes. by apply Hwf. Qed.

Lemma loadThreads_wellFormed userId b s :
  wellFormed s → wellFormed (loadThreads userId b s).
Proof.
  intros Hwf. unfold loadThreads.
  destruct (getItem _ b) as [[[txt|parsed]|]|]; try done.
  - by destruct (truthy txt).
  - intros th. simpl. rewrite sortByRecency_perm.
    intros (th0 & -> & _)%list_elem_of_fmap. apply dedupFrom_NoDup.
Qed.

End StoreInvariant.

Section HookInvariant.
Import ChatService ChatHooks.
Variable parseChunk : string → option (option string).









(** The hook changes the store through [addMessage] and [updateMessage]
    only, so message ids stay unique within every thread. *)
Lemma perform_wellFormed ss c a :
  wellFormed (store a) → wellFormed (store (perform ss c a)).
Proof.
  intros Hwf. destruct c; simpl; try done.
  - by apply updateMessage_wellFormed.
  - unfold onError. by case_bool_decide.
Qed.

Lemma transportEvent_wellFormed k ev a :
  wellFormed (store a) → wellFormed (store (transportEvent parseChunk k ev a)).
Proof.
  intros Hwf. unfold transportEvent. destruct (sessions a !! k) as [ss|]; [| done].
  destruct (deliver parseChunk ev (s_client ss)) as [c' calls].
  set (a0 := mkApp _ _ _ _ _). assert (wellFormed (store a0)) as Hwf0 by done.
  clearbody a0. revert a0 Hwf0.
  induction calls as [|c calls IH]; intros a0 Hwf0; simpl; [done |].
  by apply IH, perform_wellFormed.
Qed.

Lemma sendMessage_wellFormed text a :
  wellFormed (store a) → wellFormed (store (sendMessage text a)).
Proof.
  intros Hwf. unfold sendMessage. destruct (negb (truthy (trim text))); [done |].
  destruct (ThreadStore.currentThreadId (store a)) as [tid|]; [| done].
  destruct (authUser a) as [u|]; [| done].
  destruct (negb (truthy tid)); [done |].
  destruct (isStreaming (hook a)); [done |].
  destruct (ThreadStore.getCurrentThread (store a)); [| done].
  unfold startStream.
  destruct (ThreadStore.getCurrentThread _); cbn [store];
    by apply addMessage_wellFormed, addMessage_wellFormed.
Qed.

Lemma step_wellFormed act a :
  wellFormed (store a) → wellFormed (store (step parseChunk act a)).
Proof.
  intros Hwf. destruct act as [text| |j ev|d]; simpl.
  - by apply sendMessage_wellFormed.
  - unfold abort. destruct (abortRef (hook a)); [| done].
    simpl. by apply transportEvent_wellFormed.
  - by apply transportEvent_wellFormed.
  - done.
Qed.

End HookInvariant.

(** C5.  For the client: when the caller's signal aborts while the stream is
    in flight, [onComplete] and [onError] have not been called so far, and
    from the abort on the client calls nothing, whatever the transport still
    reports: the calls of the whole run are those made before the abort, none
    of them [onComplete] or [onError].  For the hook, in a state where the
    stream in flight is the one [abortRef] names (every state reached from
    one without streams is such a state): [abort], called while a stream is in
    flight, changes neither the store nor the browser nor the error, and from
    then on, whatever else happens to the application in between, a report of
    the transport to that stream changes nothing at all: no [updateMessage],
    no save, no error. *)
Theorem C5_abort_silences_the_stream
    (parseChunk : string → option (option string)) :
  (∀ pre post,
     ChatService.status
       (ChatService.run parseChunk pre ChatService.streamChatCompletion).1
     = ChatService.Streaming →
     let before := ChatService.run parseChunk pre ChatService.streamChatCompletion in
     let r := ChatService.run parseChunk (pre ++ ChatService.AbortSignal :: post)
                              ChatService.streamChatCompletion in
     r.2 = before.2
     ∧ List.filter ChatService.isComplete r.2 = []
     ∧ List.filter ChatService.isError r.2 = []
     ∧ ChatService.status r.1 = ChatService.Aborted)
  ∧ (∀ a k ss,
       singleInFlight a →
       ChatHooks.sessions a !! k = Some ss →
       ChatService.status (ChatHooks.s_client ss) = ChatService.Streaming →
       let a1 := ChatHooks.abort parseChunk a in
       ChatHooks.store a1 = ChatHooks.store a
       ∧ ChatHooks.browser a1 = ChatHooks.browser a
       ∧ ChatHooks.error (ChatHooks.hook a1) = ChatHooks.error (ChatHooks.hook a)
       ∧ ∀ acts ev,
           let a2 := ChatHooks.steps parseChunk acts a1 in
           ChatHooks.transportEvent parseChunk k ev a2 = a2).
Proof.
  split.
  - intros pre post Hs before r. subst before r.
    rewrite run_app. cbv zeta.
    rewrite (run_after_abort parseChunk post) by done. simpl.
    rewrite app_nil_r. destruct (run_in_flight parseChunk _ _ Hs) as [Hc He].
    by rewrite Hc, He.
  - intros a k ss Hinv Hk Hs a1. subst a1.
    destruct (Hinv k ss Hk Hs) as [Hr _].
    rewrite (abort_in_flight parseChunk a k ss) by done. simpl.
    split; [done |]. split; [done |]. split; [done |].
    intros acts ev.
    eapply transportEvent_finished with
      (ss := ChatHooks.mkSession (ChatHooks.s_threadId ss) (ChatHooks.s_messageId ss)
               (ChatHooks.s_user ss) (ChatHooks.s_request ss)
               (ChatService.mkClient
                  (ChatService.accumulatedContent (ChatHooks.s_client ss))
                  ChatService.Aborted)).
    + apply steps_keep_finished; [| simpl; congruence].
      simpl. apply list_lookup_insert_eq. by eapply lookup_lt_Some.
    + simpl. congruence.
Qed.

Lemma C5_abort_silences_the_stream_witness :
  let a := ChatHooks.transportEvent Example.parseExample 0
             (ChatService.Message "c:Hel") Example.sending in
  let a1 := ChatHooks.abort Example.parseExample a in
  ChatHooks.store a1 = ChatHooks.store a
  ∧ ∀ ev, ChatHooks.transportEvent Example.parseExample 0 ev a1 = a1.
Proof.
  intros a a1.
  destruct (C5_abort_silences_the_stream Example.parseExample) as [_ Hhook].
  destruct (Hhook a 0%nat
              (ChatHooks.mkSession "thread_1" "msg_3" Example.joe [("user", "Hi")]
                 (ChatService.mkClient "Hel" ChatService.Streaming)))
    as (Hstore & _ & _ & Hquiet).
  - intros k ss Hk _. destruct k as [|k]; [| discriminate Hk].
    split; reflexivity.
  - reflexivity.
  - reflexivity.
  - split; [exact Hstore |]. intros ev. exact (Hquiet [] ev).
Defined.

(** * Further properties of the code *)

(** ** Titles and dates *)

Section TitleFacts.
Import ThreadUtils.




Lemma substring0_truthy n s : s ≠ "" → String.substring 0 (S n) s ≠ "".
Proof. by destruct s. Qed.

Lemma truthy_spec s : truthy s = true ↔ s ≠ "".
Proof.
  unfold truthy. case_bool_decide; simpl; split; intros; congruence.
Qed.

End TitleFacts.


(** X2.  [formatThreadDate] by the age of the date, in milliseconds: under
    one minute, and for any date in the future, ["Just now"]; under one hour
    the whole minutes (1 to 59) and ["m ago"]; under one day the whole hours
    (1 to 23) and ["h ago"]; under seven days the whole days (1 to 6) and
    ["d ago"]; from seven days on, the date is left to the locale. *)
Theorem X2_formatThreadDate_by_age (b : Browser) (date : Z) :
  let age := clock b - date in
  (age < 60000 → ThreadUtils.formatThreadDate b date = inl "Just now")
  ∧ (60000 ≤ age < 3600000 →
     ThreadUtils.formatThreadDate b date = inl (pretty (age / 60000) +:+ "m ago")
     ∧ 1 ≤ age / 60000 ≤ 59)
  ∧ (3600000 ≤ age < 86400000 →
     ThreadUtils.formatThreadDate b date = inl (pretty (age / 3600000) +:+ "h ago")
     ∧ 1 ≤ age / 3600000 ≤ 23)
  ∧ (86400000 ≤ age < 604800000 →
     ThreadUtils.formatThreadDate b date = inl (pretty (age / 86400000) +:+ "d ago")
     ∧ 1 ≤ age / 86400000 ≤ 6)
  ∧ (604800000 ≤ age → ThreadUtils.formatThreadDate b date = inr date).
Proof.
  intros age. unfold ThreadUtils.formatThreadDate. fold age.
  assert (Hm : age / 1000 / 60 = age / 60000)
    by (rewrite Z.div_div by lia; reflexivity).
  assert (Hh : age / 1000 / 60 / 60 = age / 3600000)
    by (rewrite !Z.div_div by lia; reflexivity).
  assert (Hd : age / 1000 / 60 / 60 / 24 = age / 86400000)
    by (rewrite !Z.div_div by lia; reflexivity).
  cbv zeta. rewrite Hd, Hh, Hm.
  split; [| split; [| split; [| split]]]; intros Hage; repeat case_bool_decide;
    try (exfalso; Z.to_euclidean_division_equations; lia);
    try done;
    (split; [done | Z.to_euclidean_division_equations; lia]).
Qed.

Lemma X2_formatThreadDate_by_age_witness :
  ThreadUtils.formatThreadDate (mkBrowser 1000 0 ∅ false) 5000 = inl "Just now"
  ∧ ThreadUtils.formatThreadDate (mkBrowser 7200000 0 ∅ false) 0 = inl "2h ago".
Proof.
  destruct (X2_formatThreadDate_by_age (mkBrowser 1000 0 ∅ false) 5000)
    as (Hnow & _).
  destruct (X2_formatThreadDate_by_age (mkBrowser 7200000 0 ∅ false) 0)
    as (_ & _ & Hh & _).
  split.
  - apply Hnow. simpl. lia.
  - destruct Hh as [Heq _]; [simpl; lia |]. exact Heq.
Defined.

(** X3.  [formatLastChat] and [formatThreadDate] compute the age in
    different ways (one floors each quotient in turn, the other divides the
    milliseconds directly) and agree: for every date, one gives a relative
    text exactly when the other gives the same text.  Without a timestamp
    [formatLastChat] gives ["Never"]. *)
Theorem X3_formatLastChat_agrees (b : Browser) (date : Z) :
  ThreadUtils.formatLastChat b None = inl "Never"
  ∧ ∀ text, ThreadUtils.formatLastChat b (Some date) = inl text
            ↔ ThreadUtils.formatThreadDate b date = inl text.
Proof.
  split; [done |].
  assert (ThreadUtils.formatLastChat b (Some date)
          = ThreadUtils.formatThreadDate b date) as ->; [| done].
  unfold ThreadUtils.formatLastChat, ThreadUtils.formatThreadDate.
  set (age := clock b - date).
  assert (Hm : age / 1000 / 60 = age / 60000)
    by (rewrite Z.div_div by lia; reflexivity).
  assert (Hh : age / 1000 / 60 / 60 = age / 3600000)
    by (rewrite !Z.div_div by lia; reflexivity).
  assert (Hd : age / 1000 / 60 / 60 / 24 = age / 86400000)
    by (rewrite !Z.div_div by lia; reflexivity).
  cbv zeta. rewrite Hd, Hh, Hm.
  assert (Hs : bool_decide (age / 1000 < 60) = bool_decide (age / 60000 < 1)).
  { apply bool_decide_ext. Z.to_euclidean_division_equations. lia. }
  by rewrite Hs.
Qed.

(** ** Avatars *)



(** ** More on the thread store *)

Section MoreStoreFacts.
Import ThreadStore.

Lemma storageKey_inj u1 u2 :
  getThreadsStorageKey u1 = getThreadsStorageKey u2 → u1 = u2.
Proof. unfold getThreadsStorageKey. apply String.app_inj. Qed.

(** Threads that hold each id once pass through [dedupThread] unchanged. *)
Lemma dedupThread_wellFormed l :
  (∀ th, th ∈ l → NoDup (map msg_id (messages th))) → map dedupThread l = l.
Proof.
  intros Hwf. rewrite <- (map_id l) at 2. apply map_ext_in.
  intros th Hin%list_elem_of_In. destruct th as [i t ms c u].
  unfold dedupThread, deduplicatedMessages. simpl. f_equal.
  apply dedupFrom_id; [by apply (Hwf _ Hin) | set_solver].
Qed.

Lemma saveThreads_storageFails userId b s :
  storageFails (saveThreads userId b s) = storageFails b.
Proof.
  unfold saveThreads, setItem. destruct (storageFails b) eqn:Hf; simpl; congruence.
Qed.

Lemma find_thread_None i l :
  List.find (λ th, bool_decide (thread_id th = i)) l = None ↔
  ∀ th, th ∈ l → thread_id th ≠ i.
Proof.
  induction l as [|x l IH]; simpl.
  - split; [by intros _ th ?%elem_of_nil | done].
  - case_bool_decide as Hx.
    + split; [done |]. intros Hall. destruct (Hall x); [by left | done].
    + rewrite IH. split.
      * intros Hall th [->|Hin]%elem_of_cons; [done | by apply Hall].
      * intros Hall th Hin. apply Hall. by right.
Qed.

Lemma setContent_twice mid c1 c2 m :
  setContent mid c2 (setContent mid c1 m) = setContent mid c2 m.
Proof.
  unfold setContent. destruct (decide (msg_id m = mid)) as [Hm|Hm].
  - rewrite (bool_decide_eq_true_2 _ Hm). simpl. by rewrite bool_decide_eq_true_2.
  - rewrite (bool_decide_eq_false_2 _ Hm). by rewrite bool_decide_eq_false_2.
Qed.

End MoreStoreFacts.

(** X5.  [createThread] puts a new, empty thread, stamped with the current
    time and titled by the argument (["New Chat"] when that is absent or
    empty), in front of the threads it found, and selects it: [getThread] of
    the returned id and [getCurrentThread] both give the new thread, even when
    an older thread carries the same id.  It keeps message ids unique within
    threads, and keeps the list in descending [updatedAt] order when no
    thread is stamped later than the clock reads. *)
Theorem X5_createThread_selects_new_thread
    (title0 : option string) (b : Browser) (s : ThreadStore.t) :
  let r := ThreadStore.createThread title0 b s in
  let new := mkThread r.1.1 (or_default title0 "New Chat") [] (clock b) (clock b) in
  ThreadStore.threads r.1.2 = new :: ThreadStore.threads s
  ∧ ThreadStore.currentThreadId r.1.2 = Some r.1.1
  ∧ ThreadStore.getThread r.1.1 r.1.2 = Some new
  ∧ ThreadStore.getCurrentThread r.1.2 = Some new
  ∧ title new ≠ ""
  ∧ idCounter r.2 = S (idCounter b)
  ∧ (wellFormed s → wellFormed r.1.2)
  ∧ (ThreadStore.recencyOrdered (ThreadStore.threads s) →
     (∀ th, th ∈ ThreadStore.threads s → updatedAt th ≤ clock b) →
     ThreadStore.recencyOrdered (ThreadStore.threads r.1.2)).
Proof.
  intros r new. subst r new.
  split; [done |]. split; [done |].
  split. { unfold ThreadStore.getThread. simpl. by rewrite bool_decide_eq_true_2. }
  split. { unfold ThreadStore.getCurrentThread. simpl. by rewrite bool_decide_eq_true_2. }
  split. { simpl. destruct title0 as [t|]; simpl; [| done].
           destruct (truthy t) eqn:Ht; [by apply truthy_spec | done]. }
  split; [done |].
  split; [apply createThread_wellFormed | apply createThread_ordered].
Qed.

Lemma X5_createThread_selects_new_thread_witness :
  let '(s, b) := Scenario.afterTwo in
  ThreadStore.recencyOrdered
    (ThreadStore.threads (ThreadStore.createThread None (tick 10 b) s).1.2).
Proof.
  destruct (X5_createThread_selects_new_thread None
              (tick 10 Scenario.afterTwo.2) Scenario.afterTwo.1)
    as (_ & _ & _ & _ & _ & _ & _ & Hord).
  apply Hord.
  - apply (bool_decide_unpack _). vm_compute. reflexivity.
  - intros th Hin. apply list_elem_of_In in Hin. simpl in Hin.
    destruct Hin as [<- | [<- | []]]; vm_compute; discriminate.
Defined.

(** X6.  When the owner's key holds a thread collection, [loadThreads]
    replaces the threads in memory by the persisted ones, each with its
    duplicate message ids removed, in descending [updatedAt] order, whatever
    was in memory before; it does not touch the selection, which it does not
    check either: when no persisted thread carries the selected id, the
    selection is kept and [getCurrentThread] finds nothing. *)
Theorem X6_loadThreads_replaces_threads_keeps_selection
    (userId : string) (b : Browser) (s : ThreadStore.t)
    (persisted : list ChatThread) :
  storageFails b = false →
  localStorage b !! ThreadStore.getThreadsStorageKey userId
    = Some (ThreadsJson persisted) →
  let s' := ThreadStore.loadThreads userId b s in
  ThreadStore.threads s' ≡ₚ map ThreadStore.dedupThread persisted
  ∧ ThreadStore.recencyOrdered (ThreadStore.threads s')
  ∧ wellFormed s'
  ∧ ThreadStore.currentThreadId s' = ThreadStore.currentThreadId s
  ∧ ((∀ th, th ∈ persisted → Some (thread_id th) ≠ ThreadStore.currentThreadId s) →
     ThreadStore.getCurrentThread s' = None).
Proof.
  intros Hf Hl s'. subst s'. rewrite (loadThreads_found _ _ _ persisted) by done.
  simpl. split; [apply sortByRecency_perm |].
  split; [apply sortByRecency_ordered |].
  split.
  { intros th. simpl. rewrite sortByRecency_perm.
    intros (th0 & -> & _)%list_elem_of_fmap. apply dedupFrom_NoDup. }
  split; [done |].
  intros Hnone. unfold ThreadStore.getCurrentThread. simpl.
  destruct (ThreadStore.currentThreadId s) as [cur|]; [| done].
  destruct (truthy cur); [| done].
  apply find_thread_None. intros th. rewrite sortByRecency_perm.
  intros (th0 & -> & Hin)%list_elem_of_fmap. simpl.
  intros Heq. apply (Hnone th0 Hin). by rewrite Heq.
Qed.

Lemma X6_loadThreads_replaces_threads_keeps_selection_witness :
  let s := ThreadStore.mk [] (Some "thread_9") in
  let s' := ThreadStore.loadThreads "u1" C1Example.browser s in
  ThreadStore.currentThreadId s' = Some "thread_9"
  ∧ ThreadStore.getCurrentThread s' = None
  ∧ wellFormed s'.
Proof.
  intros s s'.
  destruct (X6_loadThreads_replaces_threads_keeps_selection
              "u1" C1Example.browser s C1Example.persisted)
    as (_ & _ & Hwf & Hcur & Hnone); [reflexivity | reflexivity |].
  split; [exact Hcur |]. split; [| exact Hwf].
  apply Hnone. intros th Hin. apply list_elem_of_In in Hin. simpl in Hin.
  destruct Hin as [<- | []]. discriminate.
Defined.



(** X8.  [saveThreads] writes under the owner's key only: the clock and the
    id counter are untouched, every other key of the storage keeps its value,
    and what [loadThreads] finds for another owner is what it found before.
    When the storage throws, the exception is swallowed and nothing at all
    changes. *)
Theorem X8_saveThreads_touches_only_the_owner
    (u1 u2 : string) (b : Browser) (s s0 : ThreadStore.t) :
  let b' := ThreadStore.saveThreads u1 b s in
  clock b' = clock b ∧ idCounter b' = idCounter b
  ∧ (∀ key, key ≠ ThreadStore.getThreadsStorageKey u1 →
            localStorage b' !! key = localStorage b !! key)
  ∧ (u1 ≠ u2 → ThreadStore.loadThreads u2 b' s0 = ThreadStore.loadThreads u2 b s0)
  ∧ (storageFails b = true → b' = b).
Proof.
  intros b'. subst b'. unfold ThreadStore.saveThreads, setItem.
  destruct (storageFails b) eqn:Hf; simpl; [done |].
  split; [done |]. split; [done |]. split.
  { intros key Hne. by rewrite lookup_insert_ne. }
  split; [| done]. intros Hne.
  unfold ThreadStore.loadThreads, getItem. simpl. rewrite Hf.
  rewrite lookup_insert_ne; [done |]. intros Hk. by apply storageKey_inj in Hk.
Qed.

Lemma X8_saveThreads_touches_only_the_owner_witness :
  ThreadStore.loadThreads "u1"
    (ThreadStore.saveThreads "u2" C1Example.browser Scenario.afterTwo.1)
    ThreadStore.initial
  = ThreadStore.loadThreads "u1" C1Example.browser ThreadStore.initial.
Proof.
  destruct (X8_saveThreads_touches_only_the_owner "u2" "u1" C1Example.browser
              Scenario.afterTwo.1 ThreadStore.initial) as (_ & _ & _ & Hother & _).
  apply Hother. discriminate.
Defined.

(** X9.  [deleteThread] removes every thread with the given id and nothing
    else: [getThread] of that id then finds nothing, the other threads stay,
    in their order, and message ids stay unique.  A selection other than the
    deleted id is left alone.  When the deleted id was selected, the new
    selection is the id of the first remaining thread, which is not the
    deleted id, or none when no thread remains; on a list in descending
    [updatedAt] order no remaining thread is more recent than the one
    selected, and the list stays in that order. *)
Theorem X9_deleteThread_removes_and_reselects
    (threadId : string) (s : ThreadStore.t) :
  let s' := ThreadStore.deleteThread threadId s in
  ThreadStore.getThread threadId s' = None
  ∧ (∀ th, th ∈ ThreadStore.threads s' ↔
           th ∈ ThreadStore.threads s ∧ thread_id th ≠ threadId)
  ∧ sublist (ThreadStore.threads s') (ThreadStore.threads s)
  ∧ (wellFormed s → wellFormed s')
  ∧ (ThreadStore.currentThreadId s ≠ Some threadId →
     ThreadStore.currentThreadId s' = ThreadStore.currentThreadId s)
  ∧ (ThreadStore.currentThreadId s = Some threadId →
     ThreadStore.currentThreadId s' = thread_id <$> head (ThreadStore.threads s')
     ∧ ThreadStore.currentThreadId s' ≠ Some threadId)
  ∧ (ThreadStore.recencyOrdered (ThreadStore.threads s) →
     ThreadStore.recencyOrdered (ThreadStore.threads s')
     ∧ ∀ first u, head (ThreadStore.threads s') = Some first →
                  u ∈ ThreadStore.threads s' → updatedAt u ≤ updatedAt first).
Proof.
  intros s'. subst s'.
  split.
  { unfold ThreadStore.getThread. apply find_thread_None.
    by intros th [_ Hne]%deleteThread_removes. }
  split; [apply deleteThread_removes |].
  split; [apply sublist_filter |].
  split; [apply deleteThread_wellFormed |].
  split; [apply deleteThread_other |].
  split.
  { intros Hcur. unfold ThreadStore.deleteThread. rewrite Hcur.
    rewrite bool_decide_eq_true_2 by done. simpl.
    destruct (filter _ (ThreadStore.threads s)) as [|first rest] eqn:E; [done |].
    simpl. split; [done |]. intros [= Heq].
    assert (first ∈ filter (λ th, thread_id th ≠ threadId) (ThreadStore.threads s))
      as Hin by (rewrite E; by left).
    apply list_elem_of_filter in Hin as [Hne _]. done. }
  intros Hord.
  pose proof (filter_ordered (λ th, thread_id th ≠ threadId) _ Hord) as Hf.
  split; [exact Hf |]. intros first u Hhead Hu.
  unfold ThreadStore.deleteThread in *. simpl in *.
  destruct (filter _ (ThreadStore.threads s)) as [|x rest]; [done |].
  injection Hhead as ->. by eapply recencyOrdered_head.
Qed.

Lemma X9_deleteThread_removes_and_reselects_witness :
  let s := Scenario.afterThree.1 in
  let s' := ThreadStore.deleteThread "thread_3" s in
  ThreadStore.currentThreadId s' = thread_id <$> head (ThreadStore.threads s')
  ∧ ThreadStore.recencyOrdered (ThreadStore.threads s').
Proof.
  intros s s'.
  destruct (X9_deleteThread_removes_and_reselects "thread_3" s)
    as (_ & _ & _ & _ & _ & Hsel & Hord).
  split.
  - apply Hsel. reflexivity.
  - apply Hord. apply (bool_decide_unpack _). vm_compute. reflexivity.
Defined.



Section AddFacts.
Import ThreadStore.


End AddFacts.



Section UpdateTwice.
Import ThreadStore.

Lemma updateMessage_twice threadId messageId text1 text2 b1 b2 s :
  updateMessage threadId messageId text2 b2
    (updateMessage threadId messageId text1 b1 s)
  = updateMessage threadId messageId text2 b2 s.
Proof.
  unfold updateMessage. simpl. f_equal.
  rewrite map_map. apply map_ext. intros th.
  destruct (decide (thread_id th = threadId)) as [Hid|Hid].
  - rewrite (bool_decide_eq_true_2 _ Hid). simpl.
    rewrite (bool_decide_eq_true_2 _ Hid). f_equal.
    rewrite map_map. apply map_ext. intros m. apply setContent_twice.
  - rewrite (bool_decide_eq_false_2 _ Hid). by rewrite (bool_decide_eq_false_2 _ Hid).
Qed.

Lemma updateMessage_after_chunks threadId messageId b texts final s :
  updateMessage threadId messageId final b (applyChunks threadId messageId b texts s)
  = updateMessage threadId messageId final b s.
Proof.
  unfold applyChunks. revert s.
  induction texts as [|t texts IH]; intros s; simpl; [done |].
  rewrite IH. apply updateMessage_twice.
Qed.

(** A run of chunks leaves what its last chunk alone would leave. *)
Lemma applyChunks_last threadId messageId b texts final s :
  last texts = Some final →
  applyChunks threadId messageId b texts s
  = updateMessage threadId messageId final b s.
Proof.
  destruct texts as [|t ts] using rev_ind; [done |].
  rewrite last_snoc. intros [= ->].
  unfold applyChunks. rewrite foldl_app. simpl.
  apply updateMessage_after_chunks.
Qed.

End UpdateTwice.

(** X12.  The last [updateMessage] wins: two updates of the same message of
    the same thread, one after the other, leave the store that the second
    update alone would have left, whatever the first text was and whenever
    it was written.  (So each cumulative text of a stream replaces the one
    before.) *)
Theorem X12_updateMessage_last_write_wins
    (threadId messageId text1 text2 : string) (b1 b2 : Browser)
    (s : ThreadStore.t) :
  ThreadStore.updateMessage threadId messageId text2 b2
    (ThreadStore.updateMessage threadId messageId text1 b1 s)
  = ThreadStore.updateMessage threadId messageId text2 b2 s.
Proof. apply updateMessage_twice. Qed.

(** ** More on the streaming client and the hook *)

Section MoreClientFacts.
Import ChatService ChatHooks.
Variable parseChunk : string → option (option string).

Lemma nonEmptyFragments_app datas1 datas2 :
  nonEmptyFragments parseChunk (datas1 ++ datas2)
  = nonEmptyFragments parseChunk datas1 ++ nonEmptyFragments parseChunk datas2.
Proof. unfold nonEmptyFragments, fragments. by rewrite omap_app, List.filter_app. Qed.

Lemma steps_wellFormed acts a :
  wellFormed (store a) → wellFormed (store (steps parseChunk acts a)).
Proof.
  revert a. induction acts as [|act acts IH]; intros a Hwf; simpl; [done |].
  by apply IH, step_wellFormed.
Qed.

(** The end of the body and a failure, for a stream in flight. *)
Lemma transportEvent_close k a ss :
  sessions a !! k = Some ss → status (s_client ss) = Streaming →
  transportEvent parseChunk k EndOfBody a
  = mkApp (store a)
          (ThreadStore.saveThreads (user_id (s_user ss)) (browser a) (store a))
          (authUser a)
          (mkHook false (error (hook a)) None None)
          (<[k := mkSession (s_threadId ss) (s_messageId ss) (s_user ss) (s_request ss)
                            (mkClient (accumulatedContent (s_client ss)) Completed)]>
             (sessions a)).
Proof.
  intros Hk Hs. unfold transportEvent. rewrite Hk. unfold deliver. by rewrite Hs.
Qed.

Lemma transportEvent_failure k err a ss :
  sessions a !! k = Some ss → status (s_client ss) = Streaming →
  let reported := match err with
                  | ThrownError e => e
                  | ThrownOther text => Error text
                  end in
  transportEvent parseChunk k (Failure err) a
  = mkApp (store a) (browser a) (authUser a)
          (mkHook false
                  (if bool_decide (err_name reported = "AbortError")
                   then error (hook a) else Some reported)
                  None None)
          (<[k := mkSession (s_threadId ss) (s_messageId ss) (s_user ss) (s_request ss)
                            (mkClient (accumulatedContent (s_client ss)) Errored)]>
             (sessions a)).
Proof.
  intros Hk Hs reported. subst reported.
  unfold transportEvent. rewrite Hk. unfold deliver. rewrite Hs.
  destruct err as [e|text]; [| done].
  unfold onerror, catchHandler.
  destruct (decide (err_name e = "AbortError")) as [Hn|Hn].
  - rewrite (bool_decide_eq_true_2 _ Hn).
    rewrite bool_decide_eq_false_2 by (intros Hc; by apply Hc).
    simpl. unfold onError. by rewrite (bool_decide_eq_true_2 _ Hn).
  - rewrite (bool_decide_eq_false_2 _ Hn).
    rewrite bool_decide_eq_true_2 by done.
    simpl. unfold onError. by rewrite !(bool_decide_eq_false_2 _ Hn).
Qed.

End MoreClientFacts.

(** X13.  An event that carries no text is skipped without a trace: when
    the payload is the terminator, or does not parse, or parses to a chunk
    without content or with empty content, the stream with that event gives
    the same [onChunk] calls and ends with the same accumulated text as the
    stream without it.  In particular a malformed event does not disturb the
    events around it, and the events that follow a terminator are still
    accumulated. *)
Theorem X13_textless_events_are_skipped
    (parseChunk : string → option (option string))
    (datas1 datas2 : list string) (d : string) :
  (d = "[DONE]" ∨ parseChunk d = None ∨ parseChunk d = Some None
   ∨ parseChunk d = Some (Some "")) →
  let r := ChatService.run parseChunk
             (map ChatService.Message (datas1 ++ d :: datas2))
             ChatService.streamChatCompletion in
  let r' := ChatService.run parseChunk
              (map ChatService.Message (datas1 ++ datas2))
              ChatService.streamChatCompletion in
  ChatService.chunksOf r.2 = ChatService.chunksOf r'.2 ∧ r.1 = r'.1
  ∧ ChatService.status r.1 = ChatService.Streaming.
Proof.
  intros Hd r r'. subst r r'. unfold ChatService.streamChatCompletion.
  destruct (run_messages parseChunk (datas1 ++ d :: datas2) "") as (H1 & H2 & _).
  destruct (run_messages parseChunk (datas1 ++ datas2) "") as (H1' & H2' & _).
  rewrite H1, H2, H1', H2'.
  assert (nonEmptyFragments parseChunk [d] = []) as Hnil.
  { unfold nonEmptyFragments, fragments, fragmentOf. simpl.
    destruct Hd as [-> | [-> | [-> | ->]]]; [done | | |]; by case_bool_decide. }
  change (d :: datas2) with ([d] ++ datas2).
  by rewrite !nonEmptyFragments_app, Hnil.
Qed.

Lemma X13_textless_events_are_skipped_witness :
  ChatService.chunksOf
    (ChatService.run Example.parseExample
       (map ChatService.Message (["c:Hel"] ++ "[DONE]" :: ["c:lo"]))
       ChatService.streamChatCompletion).2
  = ChatService.chunksOf
      (ChatService.run Example.parseExample
         (map ChatService.Message (["c:Hel"] ++ ["c:lo"]))
         ChatService.streamChatCompletion).2.
Proof.
  destruct (X13_textless_events_are_skipped Example.parseExample
              ["c:Hel"] ["c:lo"] "[DONE]") as (Hsame & _).
  - left. reflexivity.
  - exact Hsame.
Defined.

(** X14.  A failure of the transport, for a stream in flight, ends the
    stream and frees the hook: the in-flight flag and both refs are cleared.
    The error reported is put in the error state, unless its name is
    [AbortError], in which case the error state is left as it was.  Nothing
    is saved: the threads in memory (the user's message and whatever text the
    placeholder had received) and the storage are as before.  After that,
    nothing the transport reports to the stream and no [abort] changes
    anything. *)
Theorem X14_transport_failure_frees_the_hook
    (parseChunk : string → option (option string))
    (a : ChatHooks.App) (k : nat) (ss : ChatHooks.StreamSession)
    (err : ChatService.thrown) :
  ChatHooks.sessions a !! k = Some ss →
  ChatService.status (ChatHooks.s_client ss) = ChatService.Streaming →
  let a' := ChatHooks.transportEvent parseChunk k (ChatService.Failure err) a in
  let reported := match err with
                  | ChatService.ThrownError e => e
                  | ChatService.ThrownOther text => ChatService.Error text
                  end in
  ChatHooks.store a' = ChatHooks.store a
  ∧ ChatHooks.browser a' = ChatHooks.browser a
  ∧ ChatHooks.hook a'
    = ChatHooks.mkHook false
        (if bool_decide (ChatService.err_name reported = "AbortError")
         then ChatHooks.error (ChatHooks.hook a) else Some reported)
        None None
  ∧ (∀ ev, ChatHooks.transportEvent parseChunk k ev a' = a')
  ∧ ChatHooks.abort parseChunk a' = a'.
Proof.
  intros Hk Hs a' reported. subst a'.
  rewrite (transportEvent_failure parseChunk k err a ss Hk Hs).
  fold reported. simpl. split; [done |]. split; [done |]. split; [done |].
  split; [| done]. intros ev.
  eapply transportEvent_finished.
  - simpl. apply list_lookup_insert_eq. by eapply lookup_lt_Some.
  - simpl. congruence.
Qed.

Lemma X14_transport_failure_frees_the_hook_witness :
  let a' := ChatHooks.transportEvent Example.parseExample 0
              (ChatService.Failure (ChatService.ThrownOther "offline"))
              Example.sending in
  ChatHooks.store a' = ChatHooks.store Example.sending
  ∧ ChatHooks.hook a'
    = ChatHooks.mkHook false (Some (ChatService.Error "offline")) None None.
Proof.
  intros a'.
  destruct (X14_transport_failure_frees_the_hook Example.parseExample
              Example.sending 0%nat
              (ChatHooks.mkSession "thread_1" "msg_3" Example.joe [("user", "Hi")]
                 (ChatService.mkClient "" ChatService.Streaming))
              (ChatService.ThrownOther "offline"))
    as (Hstore & _ & Hhook & _); [reflexivity | reflexivity |].
  split; [exact Hstore | exact Hhook].
Defined.

(** X15.  The end of the response body, for a stream in flight, saves the
    threads under the key of the user who sent the message and frees the
    hook, leaving the threads in memory and the error state as they were.
    When the storage accepts the write and the threads hold each message id
    once, a later [loadThreads] for that user brings back every thread as it
    was, in recency order: the exchange survives a reload.  After that,
    nothing the transport reports to the stream and no [abort] changes
    anything. *)
Theorem X15_completion_saves_the_threads
    (parseChunk : string → option (option string))
    (a : ChatHooks.App) (k : nat) (ss : ChatHooks.StreamSession)
    (s0 : ThreadStore.t) :
  ChatHooks.sessions a !! k = Some ss →
  ChatService.status (ChatHooks.s_client ss) = ChatService.Streaming →
  let a' := ChatHooks.transportEvent parseChunk k ChatService.EndOfBody a in
  let uid := ChatHooks.user_id (ChatHooks.s_user ss) in
  ChatHooks.store a' = ChatHooks.store a
  ∧ ChatHooks.browser a'
    = ThreadStore.saveThreads uid (ChatHooks.browser a) (ChatHooks.store a)
  ∧ ChatHooks.hook a'
    = ChatHooks.mkHook false (ChatHooks.error (ChatHooks.hook a)) None None
  ∧ (storageFails (ChatHooks.browser a) = false → wellFormed (ChatHooks.store a) →
     ThreadStore.threads (ThreadStore.loadThreads uid (ChatHooks.browser a') s0)
     = ThreadStore.sortByRecency (ThreadStore.threads (ChatHooks.store a)))
  ∧ (∀ ev, ChatHooks.transportEvent parseChunk k ev a' = a')
  ∧ ChatHooks.abort parseChunk a' = a'.
Proof.
  intros Hk Hs a' uid. subst a' uid.
  rewrite (transportEvent_close parseChunk k a ss Hk Hs). simpl.
  split; [done |]. split; [done |]. split; [done |]. split; [| split; [| done]].
  - intros Hf Hwf.
    rewrite (loadThreads_found _ _ _
               (ThreadStore.sortByRecency
                  (map ThreadStore.dedupThread (ThreadStore.threads (ChatHooks.store a))))).
    + simpl. rewrite save_after_load. by rewrite dedupThread_wellFormed.
    + by rewrite saveThreads_storageFails.
    + by apply saveThreads_written.
  - intros ev. eapply transportEvent_finished.
    + simpl. apply list_lookup_insert_eq. by eapply lookup_lt_Some.
    + simpl. congruence.
Qed.

Lemma X15_completion_saves_the_threads_witness :
  let a' := ChatHooks.transportEvent Example.parseExample 0
              ChatService.EndOfBody Example.sending in
  ThreadStore.threads
    (ThreadStore.loadThreads "u1" (ChatHooks.browser a') ThreadStore.initial)
  = ThreadStore.sortByRecency (ThreadStore.threads (ChatHooks.store Example.sending)).
Proof.
  intros a'.
  destruct (X15_completion_saves_the_threads Example.parseExample
              Example.sending 0%nat
              (ChatHooks.mkSession "thread_1" "msg_3" Example.joe [("user", "Hi")]
                 (ChatService.mkClient "" ChatService.Streaming))
              ThreadStore.initial)
    as (_ & _ & _ & Hload & _); [reflexivity | reflexivity |].
  apply Hload; [reflexivity |].
  intros th Hin. apply list_elem_of_In in Hin. simpl in Hin.
  destruct Hin as [<- | []]. apply (bool_decide_unpack _). vm_compute. reflexivity.
Defined.



(** X17.  Message ids stay unique.  In every state the application reaches
    from a store whose threads hold each message id at most once, by any
    sequence of sends, aborts, reports of the transport and passing time,
    every thread still holds each message id at most once. *)
Theorem X17_message_ids_stay_unique
    (parseChunk : string → option (option string))
    (acts : list (ChatHooks.action)) (a0 : ChatHooks.App) :
  wellFormed (ChatHooks.store a0) →
  ∀ th i, th ∈ ThreadStore.threads
                 (ChatHooks.store (ChatHooks.steps parseChunk acts a0)) →
          (ThreadStore.countId i (messages th) ≤ 1)%nat.
Proof.
  intros Hwf th i Hin. apply countId_le_one.
  by apply (steps_wellFormed parseChunk acts a0 Hwf).
Qed.

Lemma X17_message_ids_stay_unique_witness :
  wellFormed (ChatHooks.store Example.idle)
  ∧ (ThreadStore.countId "msg_2"
       [mkMessage "msg_2" user "Hi" 110; mkMessage "msg_3" assistant "" 110] ≤ 1)%nat.
Proof.
  assert (Hwf : wellFormed (ChatHooks.store Example.idle)).
  { intros th Hin. apply list_elem_of_In in Hin. simpl in Hin.
    destruct Hin as [<- | []]. constructor. }
  split; [exact Hwf |].
  apply (X17_message_ids_stay_unique Example.parseExample
           [ChatHooks.Tick 10; ChatHooks.Send "Hi"] Example.idle Hwf
           (mkThread "thread_1" "Hi"
              [mkMessage "msg_2" user "Hi" 110; mkMessage "msg_3" assistant "" 110]
              100 110) "msg_2").
  apply list_elem_of_In. left. reflexivity.
Defined.

(** ** A send that goes through *)

Section SendSuccess.
Import ThreadStore ChatService ChatHooks.

Lemma generated_truthy (n : nat) : truthy ("msg_" +:+ pretty n) = true.
Proof.
  unfold truthy. apply negb_true_iff, bool_decide_eq_false_2.
  change ("msg_" +:+ pretty n)
    with (String "m" (String "s" (String "g" (String "_" (pretty n))))).
  discriminate.
Qed.




Lemma addMessage_generated threadId message b s :
  addMessage threadId message None b s
  = (mk (map (addTo threadId message
                (mkMessage ("msg_" +:+ pretty (S (idCounter b))) (in_role message)
                           (in_content message) (clock b))
                (clock b))
             (threads s))
        (currentThreadId s),
     mkBrowser (clock b) (S (idCounter b)) (localStorage b) (storageFails b)).
Proof. reflexivity. Qed.



(** A send whose two generated ids are both in the thread already. *)
Lemma sendMessage_collision text a tid u th0 :
  truthy (trim text) = true →
  currentThreadId (store a) = Some tid → truthy tid = true →
  authUser a = Some u → isStreaming (hook a) = false →
  getCurrentThread (store a) = Some th0 →
  let n := idCounter (browser a) in
  let userId := "msg_" +:+ pretty (S n) in
  let placeholderId := "msg_" +:+ pretty (S (S n)) in
  (∀ th, th ∈ threads (store a) → thread_id th = tid →
         countId userId (messages th) ≠ 0%nat
         ∧ countId placeholderId (messages th) ≠ 0%nat) →
  let a' := sendMessage text a in
  store a' = store a
  ∧ sessions a'
    = sessions a
      ++ [mkSession tid placeholderId u
            (convertMessagesToOpenAIFormat (List.filter sendable (messages th0)))
            streamChatCompletion]
  ∧ hook a' = mkHook true None (Some (length (sessions a))) (Some placeholderId)
  ∧ browser a'
    = mkBrowser (clock (browser a)) (S (S n)) (localStorage (browser a))
                (storageFails (browser a)).
Proof.
  intros Hc Hcur Htid Hu Hs Hth n userId placeholderId Hall a'.
  assert (Hne : placeholderId ≠ "").
  { intros Hempty. pose proof (generated_truthy (S (S n))) as Ht.
    fold placeholderId in Ht. rewrite Hempty in Ht. done. }
  assert (Hsame : ∀ message newMessage now,
            msg_id newMessage = userId ∨ msg_id newMessage = placeholderId →
            map (addTo tid message newMessage now) (threads (store a))
            = threads (store a)).
  { intros message newMessage now Hid. rewrite <- (map_id (threads (store a))) at 2.
    apply map_ext_in. intros th Hin. apply list_elem_of_In in Hin.
    apply addTo_present. intros Hthid.
    destruct (Hall th Hin Hthid) as [H1 H2]. by destruct Hid as [-> | ->]. }
  subst a'. unfold sendMessage. rewrite Hc, Hcur, Hu, Htid, Hs, Hth.
  cbn [negb]. unfold startStream.
  rewrite addMessage_generated. cbn [fst snd].
  unfold ThreadUtils.generateMessageId, uniqueId.
  cbn [fst snd idCounter clock localStorage storageFails].
  fold n userId placeholderId.
  rewrite (addMessage_explicit _ _ placeholderId) by done.
  cbn [fst snd idCounter clock localStorage storageFails in_role in_content threads
       currentThreadId].
  rewrite (Hsame _ _ _) by (by left).
  rewrite (Hsame _ _ _) by (by right).
  rewrite Hcur.
  assert (Hstore : mk (threads (store a)) (Some tid) = store a).
  { rewrite <- Hcur. by destruct (store a). }
  rewrite Hstore, Hth. done.
Qed.

End SendSuccess.



(** X19.  A send whose ids are taken.  The ids come from a counter that
    starts again with the page, while the threads that [loadThreads] brings
    back keep the ids given out before.  When the text is not blank, a thread
    is selected and found, a user is signed in, no stream is in flight, and
    every thread with the selected id already holds both ids the counter
    gives out next, then [sendMessage] leaves the store as it was: neither the
    user's message nor a placeholder is appended.  A stream is started all
    the same, and its request holds the thread's earlier messages only, not
    the text sent.  Once the stream has delivered a fragment that is not
    empty, the store is the one before the send with the text received so far
    written into the messages of that thread that carry the second id. *)
Theorem X19_sendMessage_with_taken_ids
    (parseChunk : string → option (option string))
    (text : string) (a : ChatHooks.App) (tid : string) (u : ChatHooks.User)
    (th0 : ChatThread) (datas : list string) :
  truthy (trim text) = true →
  ThreadStore.currentThreadId (ChatHooks.store a) = Some tid → truthy tid = true →
  ChatHooks.authUser a = Some u →
  ChatHooks.isStreaming (ChatHooks.hook a) = false →
  ThreadStore.getCurrentThread (ChatHooks.store a) = Some th0 →
  let n := idCounter (ChatHooks.browser a) in
  let userId := "msg_" +:+ pretty (S n) in
  let placeholderId := "msg_" +:+ pretty (S (S n)) in
  (∀ th, th ∈ ThreadStore.threads (ChatHooks.store a) → thread_id th = tid →
         ThreadStore.countId userId (messages th) ≠ 0%nat
         ∧ ThreadStore.countId placeholderId (messages th) ≠ 0%nat) →
  nonEmptyFragments parseChunk datas ≠ [] →
  let a1 := ChatHooks.sendMessage text a in
  let a2 := foldl (λ x d, ChatHooks.transportEvent parseChunk
                            (length (ChatHooks.sessions a))
                            (ChatService.Message d) x) a1 datas in
  ChatHooks.store a1 = ChatHooks.store a
  ∧ ChatHooks.sessions a1
    = ChatHooks.sessions a
      ++ [ChatHooks.mkSession tid placeholderId u
            (ChatService.convertMessagesToOpenAIFormat
               (List.filter ChatHooks.sendable (messages th0)))
            ChatService.streamChatCompletion]
  ∧ ChatHooks.isStreaming (ChatHooks.hook a1) = true
  ∧ ChatHooks.store a2
    = ThreadStore.updateMessage tid placeholderId
        (joinAll (nonEmptyFragments parseChunk datas))
        (ChatHooks.browser a1) (ChatHooks.store a).
Proof.
  intros Hc Hcur Htid Hu Hs Hth n userId placeholderId Hall Hne a1 a2.
  destruct (sendMessage_collision text a tid u th0 Hc Hcur Htid Hu Hs Hth Hall)
    as (Hstore & Hsess & Hhook & _).
  fold a1 in Hstore, Hsess, Hhook. fold placeholderId in Hsess, Hhook.
  split; [done |]. split; [done |]. split; [by rewrite Hhook |].
  set (ss := ChatHooks.mkSession tid placeholderId u
               (ChatService.convertMessagesToOpenAIFormat
                  (List.filter ChatHooks.sendable (messages th0)))
               ChatService.streamChatCompletion) in *.
  assert (Hk : ChatHooks.sessions a1 !! length (ChatHooks.sessions a) = Some ss).
  { rewrite Hsess. by apply list_lookup_middle. }
  destruct (transportEvents_messages parseChunk (length (ChatHooks.sessions a))
              datas a1 ss "" Hk eq_refl) as (Hstore2 & _).
  fold a2 in Hstore2. cbn [ChatHooks.s_threadId ChatHooks.s_messageId ss] in Hstore2.
  rewrite Hstore2, Hstore.
  apply applyChunks_last. by rewrite cumulative_last.
Qed.

Lemma X19_sendMessage_with_taken_ids_witness :
  let a1 := ChatHooks.sendMessage "How are you?" Reloaded.app in
  let a2 := foldl (λ x d, ChatHooks.transportEvent Example.parseExample 0
                            (ChatService.Message d) x) a1 ["c:Fine"] in
  ChatHooks.store a1 = ChatHooks.store Reloaded.app
  ∧ ChatHooks.store a2
    = ThreadStore.updateMessage "thread_1" "msg_2" "Fine"
        (ChatHooks.browser a1) (ChatHooks.store Reloaded.app).
Proof.
  intros a1 a2.
  destruct (X19_sendMessage_with_taken_ids Example.parseExample "How are you?"
              Reloaded.app "thread_1" Example.joe
              (mkThread "thread_1" "Hi"
                 [ mkMessage "msg_1" user "Hi" 110;
                   mkMessage "msg_2" assistant "Hello" 111 ] 100 111)
              ["c:Fine"])
    as (Hstore & _ & _ & Hstore2); try reflexivity.
  - intros th Hin _. apply list_elem_of_In in Hin. vm_compute in Hin.
    destruct Hin as [<- | []]. split; vm_compute; discriminate.
  - vm_compute. discriminate.
  - split; [exact Hstore | exact Hstore2].
Defined.

(** ** The dashboard and the components *)

Section TrimFacts.









End TrimFacts.

Section DashboardFacts.
Import ThreadStore DashboardHooks.

Lemma foldl_latest first l :
  let r := foldl (λ latest th,
                    if bool_decide (updatedAt latest < updatedAt th) then th
                    else latest) first l in
  (r = first ∨ r ∈ l) ∧ updatedAt first ≤ updatedAt r
  ∧ ∀ th, th ∈ l → updatedAt th ≤ updatedAt r.
Proof.
  revert first. induction l as [|a l IH]; intros first; simpl.
  - split; [by left |]. split; [lia |]. by intros th ?%elem_of_nil.
  - destruct (IH (if bool_decide (updatedAt first < updatedAt a) then a else first))
      as (Hin & Hle & Hall).
    case_bool_decide as Hlt.
    + split; [right; destruct Hin as [-> |]; [by left | by right] |].
      split; [lia |].
      intros th [-> | Hth]%elem_of_cons; [done | by apply Hall].
    + split; [destruct Hin as [-> |]; [by left | right; by right] |].
      split; [done |].
      intros th [-> | Hth]%elem_of_cons; [lia | by apply Hall].
Qed.

Lemma mostRecentThread_spec l :
  match mostRecentThread l with
  | None => l = []
  | Some r => r ∈ l ∧ ∀ th, th ∈ l → updatedAt th ≤ updatedAt r
  end.
Proof.
  destruct l as [|first l]; [done |]. unfold mostRecentThread.
  destruct (foldl_latest first (first :: l)) as (Hin & _ & Hall).
  split; [| done]. destruct Hin as [-> |]; [by left | done].
Qed.

Lemma mostRecentThread_perm l l' :
  l ≡ₚ l' → updatedAt <$> mostRecentThread l = updatedAt <$> mostRecentThread l'.
Proof.
  intros Hp.
  pose proof (mostRecentThread_spec l) as H.
  pose proof (mostRecentThread_spec l') as H'.
  destruct (mostRecentThread l) as [r|], (mostRecentThread l') as [r'|]; simpl.
  - destruct H as [Hin Hall], H' as [Hin' Hall']. f_equal.
    assert (updatedAt r' ≤ updatedAt r) by (apply Hall; by rewrite Hp).
    assert (updatedAt r ≤ updatedAt r') by (apply Hall'; by rewrite <- Hp).
    lia.
  - subst l'. apply Permutation_nil_r in Hp. subst l. destruct H as [[]%elem_of_nil _].
  - subst l. symmetry in Hp. apply Permutation_nil_r in Hp. subst l'.
    destruct H' as [[]%elem_of_nil _].
  - done.
Qed.

Lemma totalMessages_sum n l :
  foldl (λ sum th, (sum + length (messages th))%nat) n l
  = (n + sum_list_with (λ th, length (messages th)) l)%nat.
Proof.
  revert n. induction l as [|th l IH]; intros n; simpl; [lia |].
  rewrite IH. lia.
Qed.

Lemma withMessages_nil l :
  List.filter (λ th, bool_decide (0 < length (messages th))%nat) l = []
  ↔ sum_list_with (λ th, length (messages th)) l = 0%nat.
Proof.
  induction l as [|th l IH]; simpl; [done |].
  case_bool_decide as Hlen; [split; [done | lia] |].
  rewrite IH. lia.
Qed.

Lemma withMessages_elem l th :
  th ∈ List.filter (λ th, bool_decide (0 < length (messages th))%nat) l
  ↔ th ∈ l ∧ messages th ≠ [].
Proof.
  rewrite !list_elem_of_In, List.filter_In, bool_decide_eq_true.
  destruct (messages th); simpl; split; intros [? ?]; split; try done; lia.
Qed.

Lemma withMessages_perm l l' :
  l ≡ₚ l' →
  List.filter (λ th, bool_decide (0 < length (messages th))%nat) l
  ≡ₚ List.filter (λ th, bool_decide (0 < length (messages th))%nat) l'.
Proof.
  induction 1 as [| x l l' Hp IH | x y l | l1 l2 l3 H1 IH1 H2 IH2]; simpl.
  - done.
  - destruct (bool_decide _); [by constructor | done].
  - destruct (bool_decide _), (bool_decide _); try done. apply perm_swap.
  - by etrans.
Qed.

End DashboardFacts.

Section ComponentFacts.
Import ThreadStore.

Lemma load_after_save userId b s s0 :
  storageFails b = false →
  loadThreads userId (saveThreads userId b s) s0
  = mk (sortByRecency (map dedupThread (threads s))) (currentThreadId s0).
Proof.
  intros Hf.
  rewrite (loadThreads_found _ _ _ (sortByRecency (map dedupThread (threads s)))).
  - by rewrite save_after_load.
  - by rewrite saveThreads_storageFails.
  - by apply saveThreads_written.
Qed.

Lemma saved_elem userId b s s0 th :
  storageFails b = false →
  th ∈ threads (loadThreads userId (saveThreads userId b s) s0)
  ↔ ∃ th0, th0 ∈ threads s ∧ th = dedupThread th0.
Proof.
  intros Hf. rewrite load_after_save by done. cbn [threads].
  rewrite sortByRecency_perm, list_elem_of_fmap. naive_solver.
Qed.



Lemma thread_id_truthy (n : nat) : truthy ("thread_" +:+ pretty n) = true.
Proof.
  unfold truthy. apply negb_true_iff, bool_decide_eq_false_2.
  change ("thread_" +:+ pretty n) with (String "t" ("hread_" +:+ pretty n)).
  discriminate.
Qed.

End ComponentFacts.

(** X20.  The dashboard statistics.  [totalMessages] is the number of
    messages of all threads.  The last chat is absent exactly when no thread
    has a message; otherwise it is a thread of the store that has messages,
    and no thread with messages was updated later.  The statistics do not
    depend on the order of the threads: a store with the same threads in
    another order gives the same total, the same last-chat time and the same
    text for it. *)
Theorem X20_dashboard_last_chat_is_most_recent
    (b : Browser) (s s' : ThreadStore.t) :
  let st := DashboardHooks.useDashboardStats b s in
  let st' := DashboardHooks.useDashboardStats b s' in
  DashboardHooks.totalMessages st
  = sum_list_with (λ th, length (messages th)) (ThreadStore.threads s)
  ∧ DashboardHooks.activeConversations st = length (ThreadStore.threads s)
  ∧ (DashboardHooks.lastChatTimestamp st = None
     ↔ DashboardHooks.totalMessages st = 0%nat)
  ∧ (DashboardHooks.lastChatThreadId st = None
     ↔ DashboardHooks.totalMessages st = 0%nat)
  ∧ (∀ t, DashboardHooks.lastChatTimestamp st = Some t →
       (∃ th, th ∈ ThreadStore.threads s ∧ messages th ≠ [] ∧ updatedAt th = t
              ∧ DashboardHooks.lastChatThreadId st = Some (thread_id th))
       ∧ ∀ th, th ∈ ThreadStore.threads s → messages th ≠ [] → updatedAt th ≤ t)
  ∧ (ThreadStore.threads s' ≡ₚ ThreadStore.threads s →
     DashboardHooks.totalMessages st' = DashboardHooks.totalMessages st
     ∧ DashboardHooks.lastChatTimestamp st' = DashboardHooks.lastChatTimestamp st
     ∧ DashboardHooks.formattedLastChat st' = DashboardHooks.formattedLastChat st).
Proof.
  intros st st'. subst st st'. unfold DashboardHooks.useDashboardStats.
  cbn [DashboardHooks.totalMessages DashboardHooks.activeConversations
       DashboardHooks.lastChatTimestamp DashboardHooks.lastChatThreadId
       DashboardHooks.formattedLastChat].
  rewrite !totalMessages_sum. cbn [Nat.add].
  pose proof (mostRecentThread_spec
                (List.filter (λ th, bool_decide (0 < length (messages th))%nat)
                             (ThreadStore.threads s))) as Hspec.
  rewrite <- withMessages_nil.
  split; [done |]. split; [done |].
  destruct (mostRecentThread _) as [r|] eqn:Hr; cbn [fmap option_fmap option_map].
  - destruct Hspec as [Hin Hall].
    assert (Hne : List.filter (λ th, bool_decide (0 < length (messages th))%nat)
                              (ThreadStore.threads s) ≠ []).
    { intros Hnil. rewrite Hnil in Hin. by apply elem_of_nil in Hin. }
    split; [split; [done | by intros ?] |].
    split; [split; [done | by intros ?] |].
    split.
    + intros t [= <-]. apply withMessages_elem in Hin as [Hin Hmsgs].
      split; [by exists r |].
      intros th Hth Hm. apply Hall, withMessages_elem. done.
    + intros Hp. split; [by apply sum_list_with_Permutation_proper |].
      rewrite (mostRecentThread_perm _ _ (withMessages_perm _ _ Hp)), Hr. done.
  - split; [done |]. split; [done |]. split; [done |].
    intros Hp. split; [by apply sum_list_with_Permutation_proper |].
    rewrite (mostRecentThread_perm _ _ (withMessages_perm _ _ Hp)), Hr. done.
Qed.

Lemma X20_dashboard_last_chat_is_most_recent_witness :
  let t1 := mkThread "thread_1" "Hi" [mkMessage "msg_1" user "Hi" 130] 100 130 in
  let t2 := mkThread "thread_2" "New Chat" [] 140 140 in
  let b := mkBrowser 200 2 ∅ false in
  DashboardHooks.lastChatTimestamp
    (DashboardHooks.useDashboardStats b (ThreadStore.mk [t1; t2] None))
  = DashboardHooks.lastChatTimestamp
      (DashboardHooks.useDashboardStats b (ThreadStore.mk [t2; t1] None)).
Proof.
  intros t1 t2 b.
  destruct (X20_dashboard_last_chat_is_most_recent b
              (ThreadStore.mk [t2; t1] None) (ThreadStore.mk [t1; t2] None))
    as (_ & _ & _ & _ & _ & Hperm).
  destruct Hperm as (_ & Hsame & _); [apply perm_swap | exact Hsame].
Defined.

(** X21.  The conversation view never shows a message id twice: what it
    renders is the messages of the selected thread without the later
    messages of an id already seen, so every id of the thread is shown, by
    its first message, and the order is kept.  For a thread that holds each
    id once it is exactly the thread's messages; with no selection, or a
    selection that no thread carries, nothing is shown. *)
Theorem X21_conversation_shows_each_id_once (s : ThreadStore.t) :
  NoDup (map msg_id (ChatConversation.messages s))
  ∧ (∀ cur th,
       ThreadStore.currentThreadId s = Some cur →
       ThreadStore.getThread cur s = Some th →
       sublist (ChatConversation.messages s) (messages th)
       ∧ (∀ i, i ∈ map msg_id (messages th) →
               List.find (ThreadStore.hasId i) (ChatConversation.messages s)
               = List.find (ThreadStore.hasId i) (messages th))
       ∧ (NoDup (map msg_id (messages th)) →
          ChatConversation.messages s = messages th))
  ∧ ((∀ cur, ThreadStore.currentThreadId s = Some cur →
             ThreadStore.getThread cur s = None) →
     ChatConversation.messages s = []).
Proof.
  unfold ChatConversation.messages, ThreadStore.getThread.
  split; [| split].
  - destruct (ThreadStore.currentThreadId s) as [cur|]; [| constructor].
    destruct (List.find _ _); [apply dedupFrom_NoDup | constructor].
  - intros cur th -> ->. split; [apply dedupFrom_sublist |].
    split; [intros i _; apply dedupFrom_find; set_solver |].
    intros Hnd. apply dedupFrom_id; [done | set_solver].
  - intros Hnone. destruct (ThreadStore.currentThreadId s) as [cur|]; [| done].
    by rewrite (Hnone cur eq_refl).
Qed.

Lemma X21_conversation_shows_each_id_once_witness :
  ChatConversation.messages
    (ThreadStore.mk C1Example.persisted (Some "thread_1"))
  = [C1Example.first; C1Example.reply]
  ∧ sublist (ChatConversation.messages
               (ThreadStore.mk C1Example.persisted (Some "thread_1")))
            [C1Example.first; C1Example.reply; C1Example.again].
Proof.
  split; [reflexivity |].
  destruct (X21_conversation_shows_each_id_once
              (ThreadStore.mk C1Example.persisted (Some "thread_1")))
    as (_ & Hcur & _).
  destruct (Hcur "thread_1"
              (mkThread "thread_1" "first"
                 [C1Example.first; C1Example.reply; C1Example.again] 5 12)
              eq_refl eq_refl) as (Hsub & _).
  exact Hsub.
Defined.

(** X22.  Deleting a thread from the modal.  The thread is removed from the
    store and, when a user id is given and the storage accepts the write,
    from the storage as well: a later [loadThreads] for that user finds no
    thread of that id, and finds every other thread.  When the deleted thread
    was not the selected one, the selection is kept and nothing is navigated.
    When it was, the router is sent to the first remaining thread, which is
    in the store and is not the deleted one, or to the bare chat page when
    no thread remains. *)
Theorem X22_handleDelete_removes_for_good
    (threadId : string) (userId : option string) (b : Browser)
    (s : ThreadStore.t) :
  let r := DeleteThreadModal.handleDelete threadId userId b s in
  r.1.1 = ThreadStore.deleteThread threadId s
  ∧ (∀ uid s0, userId = Some uid → truthy uid = true → storageFails b = false →
       ThreadStore.getThread threadId (ThreadStore.loadThreads uid r.1.2 s0) = None
       ∧ ∀ th, th ∈ ThreadStore.threads s → thread_id th ≠ threadId →
               ThreadStore.dedupThread th
               ∈ ThreadStore.threads (ThreadStore.loadThreads uid r.1.2 s0))
  ∧ (ThreadStore.currentThreadId s ≠ Some threadId →
     r.2 = None ∧ ThreadStore.currentThreadId r.1.1 = ThreadStore.currentThreadId s)
  ∧ (ThreadStore.currentThreadId s = Some threadId →
     ∃ to, r.2 = Some (NavigateTo to)
           ∧ (to = None → ThreadStore.threads r.1.1 = []
                          ∨ ThreadStore.currentThreadId r.1.1 = Some "")
           ∧ ∀ id, to = Some id →
                   id ≠ threadId ∧ ThreadStore.currentThreadId r.1.1 = Some id
                   ∧ ∃ th, ThreadStore.getThread id r.1.1 = Some th).
Proof.
  intros r. subst r. unfold DeleteThreadModal.handleDelete. cbn [fst snd].
  split; [done |]. split; [| split].
  - intros uid s0 -> -> Hf. split.
    + apply find_thread_None. intros th (th0 & Hin & ->)%saved_elem; [| done].
      apply deleteThread_removes in Hin as [_ Hne]. done.
    + intros th Hin Hne. apply saved_elem; [done |].
      exists th. split; [| done]. by apply deleteThread_removes.
  - intros Hne. rewrite bool_decide_eq_false_2 by done.
    split; [done |]. by apply deleteThread_other.
  - intros Hcur. rewrite (bool_decide_eq_true_2 _ Hcur).
    set (s' := ThreadStore.deleteThread threadId s).
    assert (Hsel : ThreadStore.currentThreadId s'
                   = thread_id <$> head (ThreadStore.threads s')).
    { unfold s', ThreadStore.deleteThread.
      cbn [ThreadStore.currentThreadId ThreadStore.threads].
      rewrite (bool_decide_eq_true_2 _ Hcur). by destruct (filter _ _). }
    rewrite Hsel.
    destruct (ThreadStore.threads s') as [|first rest] eqn:Hrem;
      cbn [head fmap option_fmap option_map].
    + exists None. split; [done |]. split; [by left | done].
    + assert (Hfirst : first ∈ ThreadStore.threads s') by (rewrite Hrem; by left).
      destruct (truthy (thread_id first)) eqn:Ht.
      * exists (Some (thread_id first)). split; [done |]. split; [done |].
        intros id [= <-]. split; [| split; [done |]].
        { apply deleteThread_removes in Hfirst. tauto. }
        unfold ThreadStore.getThread. rewrite Hrem. simpl.
        rewrite bool_decide_eq_true_2 by done. by exists first.
      * exists None. split; [done |]. split; [| done]. intros _. right.
        f_equal. unfold truthy in Ht.
        apply negb_false_iff, bool_decide_eq_true in Ht. done.
Qed.

Lemma X22_handleDelete_removes_for_good_witness :
  let '(s, b) := Scenario.afterThree in
  let r := DeleteThreadModal.handleDelete "thread_3" (Some "u1") b s in
  ThreadStore.getThread "thread_3"
    (ThreadStore.loadThreads "u1" r.1.2 ThreadStore.initial) = None.
Proof.
  destruct (X22_handleDelete_removes_for_good "thread_3" (Some "u1")
              Scenario.afterThree.2 Scenario.afterThree.1) as (_ & Hgone & _).
  destruct (Hgone "u1" ThreadStore.initial eq_refl eq_refl eq_refl) as [Hnone _].
  exact Hnone.
Defined.

(** X23.  The new-thread button.  [handleCreateThread] puts a new, empty
    thread titled ["New Chat"] in front of the threads, selects it, and sends
    the router to it: the thread id of the navigation is the selected id, and
    [getCurrentThread] finds the new thread.  With a user signed in and a
    storage that accepts the write, the new thread is persisted at once: a
    later [loadThreads] for that user brings it back.  With no user, or a
    user whose id is empty, nothing is written. *)
Theorem X23_handleCreateThread_selects_saves_navigates
    (u : option ChatHooks.User) (b : Browser) (s : ThreadStore.t) :
  let r := NewThreadButton.handleCreateThread u b s in
  let id := "thread_" +:+ pretty (S (idCounter b)) in
  let new := mkThread id "New Chat" [] (clock b) (clock b) in
  r.2 = NavigateTo (Some id)
  ∧ ThreadStore.threads r.1.1 = new :: ThreadStore.threads s
  ∧ ThreadStore.currentThreadId r.1.1 = Some id
  ∧ ThreadStore.getCurrentThread r.1.1 = Some new
  ∧ (∀ uid s0, userIdOf u = Some uid → storageFails b = false →
       new ∈ ThreadStore.threads (ThreadStore.loadThreads uid r.1.2 s0))
  ∧ (userIdOf u = None → localStorage r.1.2 = localStorage b).
Proof.
  intros r id new. subst r. unfold NewThreadButton.handleCreateThread.
  unfold ThreadStore.createThread, uniqueId. cbn [fst snd clock or_default].
  change (truthy "New Chat") with true. cbv iota. fold id. fold new.
  split; [done |]. split; [done |]. split; [done |]. split; [| split].
  - unfold ThreadStore.getCurrentThread. cbn [ThreadStore.currentThreadId ThreadStore.threads].
    unfold id at 1. rewrite thread_id_truthy. simpl.
    by rewrite bool_decide_eq_true_2.
  - intros uid s0 -> Hf. apply saved_elem; [done |].
    exists new. split; [by left | done].
  - by intros ->.
Qed.

Lemma X23_handleCreateThread_selects_saves_navigates_witness :
  let r := NewThreadButton.handleCreateThread (Some Example.joe)
             (ChatHooks.browser Example.idle) (ChatHooks.store Example.idle) in
  mkThread "thread_2" "New Chat" [] 100 100
  ∈ ThreadStore.threads (ThreadStore.loadThreads "u1" r.1.2 ThreadStore.initial).
Proof.
  intros r.
  destruct (X23_handleCreateThread_selects_saves_navigates (Some Example.joe)
              (ChatHooks.browser Example.idle) (ChatHooks.store Example.idle))
    as (_ & _ & _ & _ & Hsaved & _).
  exact (Hsaved "u1" ThreadStore.initial eq_refl eq_refl).
Defined.

(** X24.  [logout], with a storage that works, empties the whole storage,
    not only the entries of the user who leaves: afterwards [loadThreads]
    finds nothing for any user id and leaves any store as it is.  The
    threads in memory and the selection are cleared and no user is signed in.
    The clock, the id counter and the state of the chat hook are not
    touched. *)
Theorem X24_logout_clears_every_user
    (a a' : ChatHooks.App) :
  storageFails (ChatHooks.browser a) = false →
  AuthStore.logout a = Some a' →
  ThreadStore.threads (ChatHooks.store a') = []
  ∧ ThreadStore.currentThreadId (ChatHooks.store a') = None
  ∧ ThreadStore.getCurrentThread (ChatHooks.store a') = None
  ∧ ChatHooks.authUser a' = None
  ∧ (∀ uid s0, ThreadStore.loadThreads uid (ChatHooks.browser a') s0 = s0)
  ∧ clock (ChatHooks.browser a') = clock (ChatHooks.browser a)
  ∧ idCounter (ChatHooks.browser a') = idCounter (ChatHooks.browser a)
  ∧ ChatHooks.hook a' = ChatHooks.hook a.
Proof.
  intros Hf. unfold AuthStore.logout. rewrite Hf. intros [= <-].
  cbn [ChatHooks.store ChatHooks.browser ChatHooks.authUser ChatHooks.hook
       clock idCounter].
  split; [done |]. split; [done |]. split; [done |]. split; [done |].
  split; [| done].
  intros uid s0. unfold ThreadStore.loadThreads, getItem.
  cbn [storageFails localStorage]. by rewrite lookup_empty.
Qed.

Lemma X24_logout_clears_every_user_witness :
  ∃ a', AuthStore.logout Reloaded.app = Some a'
        ∧ ThreadStore.loadThreads "u1" (ChatHooks.browser a') ThreadStore.initial
          = ThreadStore.initial.
Proof.
  eexists. split; [reflexivity |].
  destruct (X24_logout_clears_every_user Reloaded.app _ eq_refl eq_refl)
    as (_ & _ & _ & _ & Hnothing & _).
  apply Hnothing.
Defined.

(** X25.  The selection effect of [useThreadInitialization].  It asks for
    something only when a user id is given and there are threads, and then
    it takes the thread id of the URL into [lastThreadIdRef] and sets
    [initializedRef].  It selects only the thread id of the URL, and only
    when [getThread] finds it; [getCurrentThread] then finds that thread.
    Otherwise it sends the router to the first thread of the list.  It never
    sends the router to the bare chat page: the branch that would is behind
    [threads.length === 0], which has returned before.  Run again with the
    refs it left and the same arguments, it asks for nothing and leaves the
    refs as they are. *)
Theorem X25_selection_effect_targets_existing_threads
    (userId threadId : option string) (s : ThreadStore.t)
    (r : ThreadInitialization.Refs) :
  let out := ThreadInitialization.selectionEffect userId threadId s r in
  out.2 ≠ Some (ThreadInitialization.Navigate (NavigateTo None))
  ∧ (out.2 ≠ None →
     ThreadInitialization.truthyOpt userId = true ∧ ThreadStore.threads s ≠ []
     ∧ out.1 = ThreadInitialization.mkRefs true threadId)
  ∧ (∀ id, out.2 = Some (ThreadInitialization.SetCurrentThread id) →
       threadId = Some id ∧ id ≠ ""
       ∧ ∃ th, ThreadStore.getThread id s = Some th
               ∧ ThreadStore.getCurrentThread
                   (ThreadInitialization.execute out.2 s threadId).1 = Some th)
  ∧ (∀ id, out.2 = Some (ThreadInitialization.Navigate (NavigateTo (Some id))) →
       ∃ first, head (ThreadStore.threads s) = Some first ∧ thread_id first = id
                ∧ (∀ tid, threadId = Some tid → tid ≠ "" →
                          ThreadStore.getThread tid s = None))
  ∧ ThreadInitialization.selectionEffect userId threadId s out.1 = (out.1, None).
Proof.
  intros out. subst out. unfold ThreadInitialization.selectionEffect.
  destruct (ThreadInitialization.truthyOpt userId) eqn:Hu; cbn [negb orb].
  2: { destruct (ThreadStore.threads s) as [|first rest], (ThreadInitialization.initializedRef r) eqn:Hi;
         simpl; rewrite ?Hi; repeat split; try done; destruct r; simpl in *; congruence. }
  destruct (ThreadStore.threads s) as [|first rest] eqn:Hthreads.
  { destruct (ThreadInitialization.initializedRef r) eqn:Hi;
      simpl; rewrite ?Hi; repeat split; try done. }
  rewrite (bool_decide_eq_false_2 (length (first :: rest) = 0%nat)) by done.
  cbn [andb].
  destruct (bool_decide (threadId = ThreadInitialization.lastThreadIdRef r)
            && ThreadInitialization.initializedRef r) eqn:Hsame.
  { cbn [fst snd]. rewrite Hsame. repeat split; done. }
  assert (Hagain : bool_decide
                     (threadId = ThreadInitialization.lastThreadIdRef
                                   (ThreadInitialization.mkRefs true threadId))
                   && ThreadInitialization.initializedRef
                        (ThreadInitialization.mkRefs true threadId) = true).
  { simpl. by rewrite bool_decide_eq_true_2. }
  destruct threadId as [tid|]; cycle 1.
  { cbn [fst snd]. rewrite Hagain.
    split; [done |]. split; [done |]. split; [done |]. split; [| done].
    intros id [= <-]. exists first. done. }
  destruct (truthy tid) eqn:Ht; cycle 1.
  { cbn [fst snd]. rewrite Hagain.
    split; [done |]. split; [done |]. split; [done |]. split; [| done].
    intros id [= <-]. exists first. split; [done |]. split; [done |].
    intros ? [= <-] Hne. apply truthy_spec in Hne. congruence. }
  destruct (ThreadStore.getThread tid s) as [th|] eqn:Hget.
  - cbn [fst snd]. rewrite Hagain.
    split; [done |]. split; [done |]. split; [| done].
    intros id [= <-]. split; [done |]. split; [by apply truthy_spec |].
    exists th. split; [done |].
    cbn [ThreadInitialization.execute fst].
    unfold ThreadStore.getCurrentThread, ThreadStore.setCurrentThread.
    cbn [ThreadStore.currentThreadId ThreadStore.threads]. by rewrite Ht.
  - cbn [fst snd]. rewrite Hagain.
    split; [done |]. split; [done |]. split; [done |]. split; [| done].
    intros id [= <-]. exists first. split; [done |]. split; [done |].
    by intros ? [= <-] _.
Qed.

Lemma X25_selection_effect_targets_existing_threads_witness :
  let out := ThreadInitialization.selectionEffect (Some "u1") (Some "thread_9")
               (ChatHooks.store Reloaded.app)
               (ThreadInitialization.mkRefs false None) in
  ∃ first, head (ThreadStore.threads (ChatHooks.store Reloaded.app)) = Some first
           ∧ thread_id first = "thread_1".
Proof.
  intros out.
  destruct (X25_selection_effect_targets_existing_threads (Some "u1")
              (Some "thread_9") (ChatHooks.store Reloaded.app)
              (ThreadInitialization.mkRefs false None))
    as (_ & _ & _ & Hnav & _).
  destruct (Hnav "thread_1" eq_refl) as (first & Hhead & Hid & _).
  exists first. split; [exact Hhead | exact Hid].
Defined.

(** X26.  The URL effect of [useThreadInitialization] never touches the
    store.  It does nothing when the selection and the thread id of the URL
    are the same string; it sends the router to the selected thread when
    there is one and the URL names another or none; it sends the router to
    the bare chat page when nothing is selected and the URL still names a
    thread.  Once its navigation is done it has nothing more to ask: the
    effect does not loop. *)
Theorem X26_url_effect_settles_in_one_step
    (currentThreadId threadId : option string) (s : ThreadStore.t) :
  let c := ThreadInitialization.urlSyncEffect currentThreadId threadId in
  let after := ThreadInitialization.execute c s threadId in
  after.1 = s
  ∧ ThreadInitialization.urlSyncEffect currentThreadId after.2 = None
  ∧ (∀ id, currentThreadId = Some id → threadId = Some id → c = None)
  ∧ (∀ id, currentThreadId = Some id → id ≠ "" → threadId ≠ Some id →
           c = Some (ThreadInitialization.Navigate (NavigateTo (Some id)))
           ∧ after.2 = currentThreadId)
  ∧ (ThreadInitialization.truthyOpt currentThreadId = false →
     if ThreadInitialization.truthyOpt threadId
     then c = Some (ThreadInitialization.Navigate (NavigateTo None))
          ∧ after.2 = None
     else c = None).
Proof.
  intros c after. subst after c. unfold ThreadInitialization.urlSyncEffect.
  destruct currentThreadId as [cur|], threadId as [tid|];
    cbn [ThreadInitialization.truthyOpt].
  - destruct (decide (cur = tid)) as [-> | Hne].
    + rewrite bool_decide_eq_true_2 by done. cbn [ThreadInitialization.execute fst snd].
      rewrite bool_decide_eq_true_2 by done.
      split; [done |]. split; [done |]. split; [done |].
      split; [intros id [= <-] _ Hc; by destruct Hc |].
      intros Hf. by rewrite Hf.
    + rewrite bool_decide_eq_false_2 by done.
      destruct (truthy cur) eqn:Hc.
      * cbn [ThreadInitialization.execute fst snd].
        rewrite bool_decide_eq_true_2 by done.
        split; [done |]. split; [done |].
        split; [intros id [= <-] [= <-]; done |]. split; [| done].
        by intros id [= <-] _ _.
      * destruct (truthy tid) eqn:Ht; cbn [ThreadInitialization.execute fst snd];
          cbn [ThreadInitialization.truthyOpt]; rewrite ?Hc, ?Ht.
        -- split; [done |]. split; [done |].
           split; [intros id [= <-] [= <-]; done |].
           split; [| done]. intros id [= <-] Hid. apply truthy_spec in Hid. congruence.
        -- rewrite bool_decide_eq_false_2 by done.
           split; [done |]. split; [done |].
           split; [intros id [= <-] [= <-]; done |].
           split; [| done]. intros id [= <-] Hid. apply truthy_spec in Hid. congruence.
  - destruct (truthy cur) eqn:Hc; cbn [ThreadInitialization.execute fst snd].
    + rewrite bool_decide_eq_true_2 by done.
      split; [done |]. split; [done |]. split; [done |]. split; [| done].
      by intros id [= <-] _ _.
    + cbn [ThreadInitialization.truthyOpt]. rewrite ?Hc.
      split; [done |]. split; [done |]. split; [done |]. split; [| done].
      intros id [= <-] Hid. apply truthy_spec in Hid. congruence.
  - destruct (truthy tid) eqn:Ht; cbn [ThreadInitialization.execute fst snd];
      cbn [ThreadInitialization.truthyOpt]; rewrite ?Ht; repeat split; done.
  - cbn [ThreadInitialization.execute fst snd]. repeat split; done.
Qed.

Lemma X26_url_effect_settles_in_one_step_witness :
  ThreadInitialization.urlSyncEffect (Some "thread_2") (Some "thread_1")
  = Some (ThreadInitialization.Navigate (NavigateTo (Some "thread_2"))).
Proof.
  destruct (X26_url_effect_settles_in_one_step (Some "thread_2") (Some "thread_1")
              ThreadStore.initial) as (_ & _ & _ & Hnav & _).
  destruct (Hnav "thread_2" eq_refl) as [Hc _]; [discriminate | discriminate |].
  exact Hc.
Defined.






